(** * Paprika router: a shallow embedding of package [router]

    The development follows the Go sources: [router/page.go] (the [Page]
    interface and the four dispatch helpers) and [router/router.go] (the
    [Router] with [NewRouter], [Run], [CtxSetValue], [CtxValue], [Push],
    [Pop] and [current]).

    Router methods are computations in a small monad [M]: the receiver
    [*Router] is threaded as state, the calls made into the page objects and
    into the rendering backend are written to an event log, and a Go run-time
    panic is the result [Panic]. *)

From Stdlib Require Import ZArith Lia String.
From stdpp Require Import base list strings.

Open Scope Z_scope.

(** ** Go values *)

(** A concrete page object is known by its identity.  A value of the
    interface type [Page] is either such an object or [nil]. *)
Definition PageId := nat.
Definition Page := option PageId.

(** Values of type [interface{}], as far as the router stores them in its
    context; [anil] is the nil interface value. *)
Inductive any : Type :=
  | anil
  | abool (b : bool)
  | aint (n : Z)
  | astring (s : string)
  | apage (p : PageId).

#[global] Instance any_eq_dec : EqDecision any.
Proof. solve_decision. Defined.

(** Run-time panics of the Go code that the router can raise. *)
Inductive RuntimeError : Type :=
  | SliceBoundsOutOfRange (low high : nat)
  | IndexOutOfRange (i len : nat).

(** [uint] is 64 bits wide; the conversion [int(x)] keeps the bit pattern,
    so values from [2^63] on become negative. *)
Definition uint_modulus : Z := 2 ^ 64.
Definition MaxInt : Z := 2 ^ 63 - 1.

Definition int_of_uint (x : Z) : Z :=
  let u := x mod uint_modulus in
  if u <=? MaxInt then u else u - uint_modulus.

(** ** package context *)

(** A context is either a root (the background context, or a context handed
    in through [WithContext], of which only the [Value] method matters here)
    or a [valueCtx] node made by [context.WithValue].  Cancellation
    ([Done]) comes from outside and is an input of [Run]. *)
Inductive Context : Type :=
  | rootCtx (value : any -> any)
  | valueCtx (parent : Context) (key val : any).

Definition Background : Context := rootCtx (fun _ => anil).

Definition WithValue (parent : Context) (key val : any) : Context :=
  valueCtx parent key val.

Fixpoint Value (c : Context) (key : any) : any :=
  match c with
  | rootCtx value => value key
  | valueCtx parent k v => if decide (k = key) then v else Value parent key
  end.

(** ** The router *)

Record Router : Type := mkRouter {
  ctx : Context;
  defaultPage : Page;
  history : Z;
  pageHistory : list Page
}.

Definition DefaultHistory : Z := 10.

Definition set_ctx (c : Context) (r : Router) : Router :=
  mkRouter c (defaultPage r) (history r) (pageHistory r).
Definition set_defaultPage (p : Page) (r : Router) : Router :=
  mkRouter (ctx r) p (history r) (pageHistory r).
Definition set_history (h : Z) (r : Router) : Router :=
  mkRouter (ctx r) (defaultPage r) h (pageHistory r).
Definition set_pageHistory (s : list Page) (r : Router) : Router :=
  mkRouter (ctx r) (defaultPage r) (history r) s.

(** The exported options; a [uint] argument is stored modulo [2^64]. *)
Inductive RouterOption : Type :=
  | WithHistory (recordedHistory : Z)
  | WithContext (c : Context)
  | WithDefaultPage (page : Page).

Definition applyOption (r : Router) (o : RouterOption) : Router :=
  match o with
  | WithHistory recordedHistory =>
      set_history (recordedHistory mod uint_modulus) r
  | WithContext c => set_ctx c r
  | WithDefaultPage page => set_defaultPage page r
  end.

Definition NewRouter (options : list RouterOption) : Router :=
  foldl applyOption (mkRouter Background None DefaultHistory []) options.

(** ** Events and the monad of router code *)

(** Calls that leave the router: the four methods of a page and the frame
    brackets of the rendering backend. *)
Inductive Event : Type :=
  | EMount (p : PageId)
  | EUnmount (p : PageId)
  | EUpdate (p : PageId)
  | EDraw (p : PageId)
  | EBeginDrawing
  | EEndDrawing.

#[global] Instance Event_eq_dec : EqDecision Event.
Proof. solve_decision. Defined.

Inductive Result (A : Type) : Type :=
  | Ok (a : A)
  | Panic (e : RuntimeError).
Arguments Ok {A} a.
Arguments Panic {A} e.

Definition M (A : Type) : Type := Router -> Result (A * Router * list Event).

#[global] Instance M_ret : MRet M := fun A a r => Ok (a, r, []).

#[global] Instance M_bind : MBind M := fun A B f m r =>
  match m r with
  | Panic e => Panic e
  | Ok (a, r1, t1) =>
      match f a r1 with
      | Panic e => Panic e
      | Ok (b, r2, t2) => Ok (b, r2, t1 ++ t2)
      end
  end.

Definition get : M Router := fun r => Ok (r, r, []).
Definition modify (f : Router -> Router) : M unit := fun r => Ok (tt, f r, []).
Definition emit (e : Event) : M unit := fun r => Ok (tt, r, [e]).
Definition panic {A : Type} (e : RuntimeError) : M A := fun _ => Panic e.

(** Slice expressions and indexing, with Go's bounds checks. *)
Definition slice_from {A : Type} (s : list A) (low : nat) : M (list A) :=
  if (low <=? length s)%nat then mret (drop low s)
  else panic (SliceBoundsOutOfRange low (length s)).

Definition slice_to {A : Type} (s : list A) (high : nat) : M (list A) :=
  if (high <=? length s)%nat then mret (take high s)
  else panic (SliceBoundsOutOfRange high (length s)).

Definition index {A : Type} (s : list A) (i : nat) : M A :=
  match s !! i with
  | Some x => mret x
  | None => panic (IndexOutOfRange i (length s))
  end.

(** ** page.go: dispatch to a page *)

(** What a page's [Update] does with the router it is handed: a finite tree
    of calls to the exported methods, each continuation receiving the call's
    result. *)
Inductive Script : Type :=
  | Done
  | CallPush (page : Page) (k : Script)
  | CallPop (k : Page -> Script)
  | CallCtxSetValue (key : string) (value : any) (k : Script)
  | CallCtxValue (key : string) (k : any -> Script).

(** [Mount], [Unmount] and [Draw] work on resources of the page itself; the
    router sees the call and nothing else. *)
Definition mountPage (page : Page) : M unit :=
  match page with
  | None => mret tt
  | Some p => emit (EMount p)
  end.

Definition unmountPage (page : Page) : M unit :=
  match page with
  | None => mret tt
  | Some p => emit (EUnmount p)
  end.

Definition drawPage (page : Page) : M unit :=
  match page with
  | None => mret tt
  | Some p => emit (EDraw p)
  end.

(** ** router.go *)

Definition CtxSetValue (key : string) (value : any) : M unit :=
  modify (fun r => set_ctx (WithValue (ctx r) (astring key) value) r).

Definition CtxValue (key : string) : M any :=
  r ← get; mret (Value (ctx r) (astring key)).

Definition Push (page : Page) : M unit :=
  r ← get;
  (if int_of_uint (history r) <=? Z.of_nat (length (pageHistory r))
   then s ← slice_from (pageHistory r) 1; modify (set_pageHistory s)
   else mret tt);;
  r ← get;
  (if (length (pageHistory r) =? 0)%nat then mret tt
   else lastPage ← index (pageHistory r) (length (pageHistory r) - 1);
        unmountPage lastPage);;
  r ← get;
  modify (set_pageHistory (pageHistory r ++ [page]));;
  mountPage page.

Definition Pop : M Page :=
  r ← get;
  if (length (pageHistory r) =? 0)%nat then mret None
  else
    lastPage ← index (pageHistory r) (length (pageHistory r) - 1);
    unmountPage lastPage;;
    r ← get;
    s ← slice_to (pageHistory r) (length (pageHistory r) - 1);
    modify (set_pageHistory s);;
    r ← get;
    if (length (pageHistory r) =? 0)%nat then mret None
    else
      previous ← index (pageHistory r) (length (pageHistory r) - 1);
      mountPage previous;;
      mret lastPage.

Definition current : M Page :=
  r ← get;
  if (length (pageHistory r) =? 0)%nat then mret None
  else index (pageHistory r) (length (pageHistory r) - 1).

(** Running the body of a page's [Update]. *)
Fixpoint runScript (s : Script) : M unit :=
  match s with
  | Done => mret tt
  | CallPush page k => Push page;; runScript k
  | CallPop k => p ← Pop; runScript (k p)
  | CallCtxSetValue key value k => CtxSetValue key value;; runScript k
  | CallCtxValue key k => v ← CtxValue key; runScript (k v)
  end.

Definition updatePage (impl : PageId -> Script) (page : Page) : M unit :=
  match page with
  | None => mret tt
  | Some p => emit (EUpdate p);; runScript (impl p)
  end.

(** What [Run] observes from outside in one turn of its loop: the window's
    close flag, whether the context is done, and what each page's [Update]
    does in this frame (it depends on the keys pressed). *)
Record Frame : Type := mkFrame {
  windowShouldClose : bool;
  ctxDone : bool;
  onUpdate : PageId -> Script
}.

(** Lines 124-132 of [Run]: the page to show in this turn; [None] stands
    for [continue]. *)
Definition resolvePage : M Page :=
  currentPage ← current;
  match currentPage with
  | Some _ => mret currentPage
  | None =>
      r ← get;
      match defaultPage r with
      | Some _ => Push (defaultPage r);; mret (defaultPage r)
      | None => mret None
      end
  end.

(** The [default:] branch of the [select] in [Run]. *)
Definition runFrame (f : Frame) : M unit :=
  currentPage ← resolvePage;
  match currentPage with
  | None => mret tt
  | Some _ =>
      updatePage (onUpdate f) currentPage;;
      emit EBeginDrawing;;
      drawPage currentPage;;
      emit EEndDrawing
  end.

(** [Run] over the observations of its first turns; when they are used up
    the loop is still running and the state reached so far is returned. *)
Fixpoint Run (frames : list Frame) : M unit :=
  match frames with
  | [] => mret tt
  | f :: rest =>
      if windowShouldClose f then mret tt
      else if ctxDone f then mret tt
      else runFrame f;; Run rest
  end.

(** ** Observations on event logs *)

Fixpoint remove_first (p : PageId) (l : list PageId) : list PageId :=
  match l with
  | [] => []
  | q :: l' => if decide (p = q) then l' else q :: remove_first p l'
  end.

(** The pages that have been mounted and not unmounted since. *)
Definition track_event (acc : list PageId) (e : Event) : list PageId :=
  match e with
  | EMount p => acc ++ [p]
  | EUnmount p => remove_first p acc
  | _ => acc
  end.

Definition mounted (t : list Event) : list PageId := foldl track_event [] t.

(** The pages drawn, in order. *)
Definition drawn (t : list Event) : list PageId :=
  omap (fun e => match e with EDraw p => Some p | _ => None end) t.

(** The active page of a router, as a list of at most one page. *)
Definition active (r : Router) : list PageId :=
  match last (pageHistory r) with
  | Some (Some p) => [p]
  | _ => []
  end.

(** A sequence of navigation calls. *)
Inductive Nav : Type :=
  | NavPush (page : Page)
  | NavPop.

Definition runNav (n : Nav) : M unit :=
  match n with
  | NavPush page => Push page
  | NavPop => Pop;; mret tt
  end.

Fixpoint runNavs (ns : list Nav) : M unit :=
  match ns with
  | [] => mret tt
  | n :: ns' => runNav n;; runNavs ns'
  end.

Fixpoint PushAll (pages : list Page) : M unit :=
  match pages with
  | [] => mret tt
  | page :: pages' => Push page;; PushAll pages'
  end.

(** A sequence of [CtxSetValue] calls and the last value written to a key. *)
Fixpoint CtxSetAll (ws : list (string * any)) : M unit :=
  match ws with
  | [] => mret tt
  | (key, value) :: ws' => CtxSetValue key value;; CtxSetAll ws'
  end.

Fixpoint lastWrite (key : string) (ws : list (string * any)) : option any :=
  match ws with
  | [] => None
  | (k, v) :: ws' =>
      match lastWrite key ws' with
      | Some v' => Some v'
      | None => if decide (k = key) then Some v else None
      end
  end.

(** A history limit under which [Push] can keep at least one page. *)
Definition valid_limit (r : Router) : Prop := 0 < int_of_uint (history r).

(** Routers that the exported interface can produce. *)
Inductive Reachable : Router -> Prop :=
  | reach_new (options : list RouterOption) : Reachable (NewRouter options)
  | reach_script (s : Script) (r r' : Router) (t : list Event) :
      Reachable r -> runScript s r = Ok (tt, r', t) -> Reachable r'.

(** ** The example application (package main) *)

Module Example.

(** [HomePage{temp}] is identified with [temp].  Its [Update] pushes the
    next page when the right key is pressed and pops when the left key is
    pressed. *)
Definition HomePage_Update (keyRight keyLeft : bool) (temp : PageId) : Script :=
  let after := if keyLeft then CallPop (fun _ => Done) else Done in
  if keyRight then CallPush (Some (S temp)) after else after.

Definition frame (keyRight keyLeft : bool) : Frame :=
  mkFrame false false (HomePage_Update keyRight keyLeft).

Definition main_router : Router :=
  NewRouter [WithHistory 15; WithDefaultPage (Some 1%nat)].

(** The router of [main] once [Run] has pushed the default page. *)
Definition started : Router :=
  mkRouter Background (Some 1%nat) 15 [Some 1%nat].

(** A router that keeps a single page, with page 7 as its default. *)
Definition single_slot : Router :=
  NewRouter [WithHistory 1; WithDefaultPage (Some 7%nat)].

(** A frame in which the page shown pushes the nil page. *)
Definition push_nil_frame : Frame :=
  mkFrame false false (fun _ => CallPush None Done).

End Example.

(** ** Auxiliary definitions for the statements *)

(** The calls a dispatch on [page] makes. *)
Definition calls (E : PageId -> Event) (page : Page) : list Event :=
  match page with
  | Some p => [E p]
  | None => []
  end.

(** The [Unmount] that [Push] and [Pop] send to the last entry of [s]. *)
Definition unmount_last (s : list Page) : list Event :=
  match last s with
  | Some page => calls EUnmount page
  | None => []
  end.

(** [Push] once the eviction has been decided: unmount the last entry of
    [s], append, mount. *)
Definition pushed (page : Page) (s : list Page) (r : Router)
  : Result (unit * Router * list Event) :=
  Ok (tt, set_pageHistory (s ++ [page]) r, unmount_last s ++ calls EMount page).

(** The [Mount] that [Pop] sends to the entry that becomes last. *)
Definition mount_last (s : list Page) : list Event :=
  match last s with
  | Some page => calls EMount page
  | None => []
  end.

(** The last entry of a history, [nil] when there is none. *)
Definition top (s : list Page) : Page :=
  match last s with
  | Some page => page
  | None => None
  end.

(** The history after the eviction step of [Push]. *)
Definition evict (r : Router) : list Page :=
  if int_of_uint (history r) <=? Z.of_nat (length (pageHistory r))
  then drop 1 (pageHistory r)
  else pageHistory r.

(** The state of a router together with the log of all calls made so far:
    the pages mounted and not yet unmounted are the active page alone, and
    the history is within the limit. *)
Definition one_mounted (r : Router) (t : list Event) : Prop :=
  mounted t = active r
  /\ Z.of_nat (length (pageHistory r)) <= int_of_uint (history r).

(** The log of a turn that shows page [p], given the calls [t] that the
    page's [Update] caused. *)
Definition frame_log (p : PageId) (t : list Event) : list Event :=
  EUpdate p :: t ++ [EBeginDrawing; EDraw p; EEndDrawing].

(** ** Definitions for the further properties *)

(** The argument of the last option of each kind in a list of options. *)
Fixpoint lastWithHistory (options : list RouterOption) : option Z :=
  match options with
  | [] => None
  | o :: rest =>
      match lastWithHistory rest, o with
      | Some n, _ => Some n
      | None, WithHistory n => Some n
      | None, _ => None
      end
  end.

Fixpoint lastWithContext (options : list RouterOption) : option Context :=
  match options with
  | [] => None
  | o :: rest =>
      match lastWithContext rest, o with
      | Some c, _ => Some c
      | None, WithContext c => Some c
      | None, _ => None
      end
  end.

Fixpoint lastWithDefaultPage (options : list RouterOption) : option Page :=
  match options with
  | [] => None
  | o :: rest =>
      match lastWithDefaultPage rest, o with
      | Some page, _ => Some page
      | None, WithDefaultPage page => Some page
      | None, _ => None
      end
  end.

(** [n] calls of [Pop] in a row, with the pages they return. *)
Fixpoint PopN (n : nat) : M (list Page) :=
  match n with
  | O => mret []
  | S n' => page ← Pop; pages ← PopN n'; mret (page :: pages)
  end.

(** What [length s] calls of [Pop] return on the history [s]: the entries
    from the last down to the second, and nil for the first. *)
Definition popped (s : list Page) : list Page :=
  match s with
  | [] => []
  | _ :: s' => reverse s' ++ [None]
  end.

(** The last [L] entries of a list. *)
Definition window {A : Type} (L : nat) (l : list A) : list A :=
  drop (length l - L) l.

(** The pages updated, in order. *)
Definition updated (t : list Event) : list PageId :=
  omap (fun e => match e with EUpdate p => Some p | _ => None end) t.


(** Along the log [t], starting with the pages [acc] mounted, there is no
    moment at which two pages are mounted. *)
Fixpoint never_two_mounted (acc : list PageId) (t : list Event) : Prop :=
  (length acc <= 1)%nat
  /\ match t with
     | [] => True
     | e :: t' => never_two_mounted (track_event acc e) t'
     end.

(** ** Basic facts about the monad and the slice operations *)

Lemma int_of_uint_small (h : Z) : 0 <= h <= MaxInt -> int_of_uint h = h.
Proof.
  intros Hh. unfold int_of_uint, uint_modulus, MaxInt in *.
  rewrite Z.mod_small by lia.
  destruct (Z.leb_spec h (2 ^ 63 - 1)); lia.
Qed.

Lemma snoc_cases {A : Type} (s : list A) :
  s = [] \/ exists s' x, s = s' ++ [x].
Proof.
  induction s as [| x s' _] using rev_ind; [left | right]; eauto.
Qed.

Lemma index_last {A : Type} (s : list A) (x : A) (r : Router) :
  index (s ++ [x]) (length (s ++ [x]) - 1) r = Ok (x, r, []).
Proof.
  unfold index. rewrite length_app. simpl.
  replace (length s + 1 - 1)%nat with (length s) by lia.
  rewrite lookup_app_r by lia.
  replace (length s - length s)%nat with 0%nat by lia. reflexivity.
Qed.

Lemma mountPage_eq (page : Page) (r : Router) :
  mountPage page r = Ok (tt, r, calls EMount page).
Proof. destruct page; reflexivity. Qed.

Lemma unmountPage_eq (page : Page) (r : Router) :
  unmountPage page r = Ok (tt, r, calls EUnmount page).
Proof. destruct page; reflexivity. Qed.

Lemma drawPage_eq (page : Page) (r : Router) :
  drawPage page r = Ok (tt, r, calls EDraw page).
Proof. destruct page; reflexivity. Qed.

Lemma set_pageHistory_id (r : Router) : set_pageHistory (pageHistory r) r = r.
Proof. destruct r; reflexivity. Qed.

(** ** Push, Pop and current in closed form *)

Lemma Push_eq (page : Page) (r : Router) :
  Push page r =
  if int_of_uint (history r) <=? Z.of_nat (length (pageHistory r))
  then match pageHistory r with
       | [] => Panic (SliceBoundsOutOfRange 1 0)
       | _ :: s => pushed page s r
       end
  else pushed page (pageHistory r) r.
Proof.
  assert (Hgo : forall s r0,
    (r1 ← get;
     (if (length (pageHistory r1) =? 0)%nat then mret tt
      else lastPage ← index (pageHistory r1) (length (pageHistory r1) - 1);
           unmountPage lastPage);;
     r2 ← get;
     modify (set_pageHistory (pageHistory r2 ++ [page]));;
     mountPage page) (set_pageHistory s r0) = pushed page s r0).
  { intros s r0. unfold pushed, unmount_last.
    induction s as [| x s' _] using rev_ind.
    - destruct page; reflexivity.
    - rewrite last_snoc.
      unfold mbind, M_bind, get. cbn [pageHistory set_pageHistory].
      replace (length (s' ++ [x]) =? 0)%nat with false
        by (symmetry; apply Nat.eqb_neq; rewrite length_app; simpl; lia).
      rewrite index_last, unmountPage_eq. simpl.
      rewrite mountPage_eq. simpl.
      rewrite ?app_nil_r. destruct r0; reflexivity. }
  unfold Push at 1. unfold mbind at 1, M_bind at 1, get at 1.
  destruct (int_of_uint (history r) <=? Z.of_nat (length (pageHistory r))).
  - destruct (pageHistory r) as [| x s] eqn:Hs.
    + reflexivity.
    + unfold mbind at 1, M_bind at 1.
      unfold mbind at 1, M_bind at 1. unfold slice_from. simpl.
      rewrite drop_0.
      change (mkRouter (ctx r) (defaultPage r) (history r) s)
        with (set_pageHistory s r).
      rewrite Hgo. unfold pushed. reflexivity.
  - unfold mbind at 1, M_bind at 1. simpl.
    rewrite <- (set_pageHistory_id r) at 1.
    rewrite Hgo. unfold pushed. reflexivity.
Qed.

Lemma length_snoc_eqb {A : Type} (s : list A) (x : A) :
  (length (s ++ [x]) =? 0)%nat = false.
Proof. apply Nat.eqb_neq. rewrite length_app. simpl. lia. Qed.

Lemma Pop_nil (r : Router) :
  pageHistory r = [] -> Pop r = Ok (None, r, []).
Proof. intros Hs. unfold Pop, mbind, M_bind, get. rewrite Hs. reflexivity. Qed.

Lemma Pop_snoc (r : Router) (s : list Page) (x : Page) :
  pageHistory r = s ++ [x] ->
  Pop r = Ok (match s with [] => None | _ => x end,
              set_pageHistory s r,
              calls EUnmount x ++ mount_last s).
Proof.
  intros Hs. unfold Pop, mbind, M_bind, get. rewrite Hs.
  rewrite length_snoc_eqb, index_last, unmountPage_eq.
  unfold slice_to. rewrite Hs.
  replace (length (s ++ [x]) - 1)%nat with (length s)
    by (rewrite length_app; simpl; lia).
  replace (length s <=? length (s ++ [x]))%nat with true
    by (symmetry; apply Nat.leb_le; rewrite length_app; lia).
  rewrite take_app_length. cbn [mret M_ret modify pageHistory set_pageHistory].
  induction s as [| y s' _] using rev_ind.
  - destruct x; reflexivity.
  - rewrite length_snoc_eqb, index_last, mountPage_eq.
    unfold mount_last. rewrite last_snoc. simpl. rewrite app_nil_r.
    destruct (s' ++ [y]) eqn:E; [destruct s'; discriminate | reflexivity].
Qed.

Lemma current_eq (r : Router) : current r = Ok (top (pageHistory r), r, []).
Proof.
  unfold current, mbind, M_bind, get, top.
  induction (pageHistory r) as [| x s _] using rev_ind.
  - reflexivity.
  - rewrite length_snoc_eqb, index_last, last_snoc. reflexivity.
Qed.

Lemma Push_valid (page : Page) (r : Router) :
  valid_limit r -> Push page r = pushed page (evict r) r.
Proof.
  unfold valid_limit, evict. intros Hv. rewrite Push_eq.
  destruct (Z.leb_spec (int_of_uint (history r))
                       (Z.of_nat (length (pageHistory r)))) as [Hle | Hlt];
    [| reflexivity].
  destruct (pageHistory r) as [| x s]; [simpl in Hle; lia | reflexivity].
Qed.

Lemma Push_room (page : Page) (r : Router) :
  Z.of_nat (length (pageHistory r)) < int_of_uint (history r) ->
  Push page r = pushed page (pageHistory r) r.
Proof.
  intros Hroom. rewrite Push_eq.
  destruct (Z.leb_spec (int_of_uint (history r))
                       (Z.of_nat (length (pageHistory r)))); [lia | reflexivity].
Qed.

Lemma length_evict (r : Router) :
  valid_limit r ->
  Z.of_nat (length (pageHistory r)) <= int_of_uint (history r) ->
  Z.of_nat (length (evict r)) < int_of_uint (history r).
Proof.
  unfold valid_limit, evict. intros Hv Hle.
  destruct (Z.leb_spec (int_of_uint (history r))
                       (Z.of_nat (length (pageHistory r)))); [| lia].
  rewrite length_drop. lia.
Qed.

(** ** Scripts never fault under a valid limit *)

Lemma Pop_total (r : Router) :
  exists page s t, Pop r = Ok (page, set_pageHistory s r, t).
Proof.
  destruct (snoc_cases (pageHistory r)) as [Hs | (s & x & Hs)].
  - exists None, [], []. rewrite Pop_nil by assumption.
    rewrite <- Hs, set_pageHistory_id. reflexivity.
  - eexists _, _, _. apply Pop_snoc. eassumption.
Qed.

Lemma runScript_valid (s : Script) :
  forall r, valid_limit r ->
  exists r' t, runScript s r = Ok (tt, r', t)
               /\ history r' = history r
               /\ defaultPage r' = defaultPage r.
Proof.
  induction s as [| page k IH | k IH | key value k IH | key k IH];
    intros r Hv; simpl.
  - exists r, []. auto.
  - unfold mbind, M_bind. rewrite Push_valid by assumption. unfold pushed.
    destruct (IH (set_pageHistory (evict r ++ [page]) r) Hv)
      as (r' & t & -> & Hh & Hd).
    eexists _, _. split; [reflexivity |]. auto.
  - unfold mbind, M_bind.
    destruct (Pop_total r) as (page & s & t0 & ->).
    destruct (IH page (set_pageHistory s r) Hv) as (r' & t & -> & Hh & Hd).
    eexists _, _. split; [reflexivity |]. auto.
  - unfold mbind, M_bind, CtxSetValue, modify.
    destruct (IH (set_ctx (WithValue (ctx r) (astring key) value) r) Hv)
      as (r' & t & -> & Hh & Hd).
    eexists _, _. split; [reflexivity |]. auto.
  - unfold mbind, M_bind, CtxValue, get. simpl.
    destruct (IH (Value (ctx r) (astring key)) r Hv) as (r' & t & -> & Hh & Hd).
    eexists _, _. split; [reflexivity |]. auto.
Qed.

(** ** Pop *)

(** With two entries or more, [Pop] unmounts and returns the last entry and
    mounts the one before it. *)
Lemma Pop_returns_last (r : Router) (s : list Page) (y x : Page) :
  pageHistory r = (s ++ [y]) ++ [x] ->
  Pop r = Ok (x, set_pageHistory (s ++ [y]) r,
              calls EUnmount x ++ calls EMount y).
Proof.
  intros Hs. rewrite (Pop_snoc r (s ++ [y]) x Hs).
  unfold mount_last. rewrite last_snoc.
  destruct (s ++ [y]) eqn:E; [destruct s; discriminate | reflexivity].
Qed.

(** C1.  With exactly one entry [p] in the history, [Pop] unmounts [p] and
    empties the history, but the value it returns is nil and not [p]: the
    second [return nil] of [Pop] is taken. *)
Theorem Pop_single_entry_returns_nil
  (c : Context) (d : Page) (h : Z) (p : PageId) :
  Pop (mkRouter c d h [Some p]) = Ok (None, mkRouter c d h [], [EUnmount p]).
Proof. reflexivity. Qed.

(** ** The history bound *)

Lemma Push_bound (page : Page) (r : Router) :
  valid_limit r ->
  Z.of_nat (length (pageHistory r)) <= int_of_uint (history r) ->
  exists r' t,
    Push page r = Ok (tt, r', t)
    /\ history r' = history r
    /\ Z.of_nat (length (pageHistory r')) <= int_of_uint (history r').
Proof.
  intros Hv Hle. rewrite Push_valid by assumption. unfold pushed.
  eexists _, _. split; [reflexivity |]. split; [reflexivity |].
  cbn [pageHistory history set_pageHistory].
  pose proof (length_evict r Hv Hle). rewrite length_app. simpl. lia.
Qed.

(** From a history within a limit between 1 and [MaxInt], every sequence of
    [Push] calls completes and leaves the history within the limit. *)
Lemma PushAll_bound (pages : list Page) :
  forall r,
  valid_limit r ->
  Z.of_nat (length (pageHistory r)) <= int_of_uint (history r) ->
  exists r' t,
    PushAll pages r = Ok (tt, r', t)
    /\ history r' = history r
    /\ Z.of_nat (length (pageHistory r')) <= int_of_uint (history r').
Proof.
  induction pages as [| page pages IH]; intros r Hv Hle; simpl.
  - exists r, []. auto.
  - destruct (Push_bound page r Hv Hle) as (r1 & t1 & HP & Hh1 & Hle1).
    assert (Hv1 : valid_limit r1) by (unfold valid_limit; rewrite Hh1; exact Hv).
    destruct (IH r1 Hv1 Hle1) as (r2 & t2 & HA & Hh2 & Hle2).
    unfold mbind, M_bind. rewrite HP, HA.
    eexists _, _. split; [reflexivity |]. split; [congruence | assumption].
Qed.

(** C2.  With a history limit of 0 no sequence of [Push] calls on a new
    router gets past its first call: the eviction step slices the empty
    history from index 1 and the call panics, so there is no state after
    the call in which the bound could hold. *)
Theorem PushAll_limit_zero_faults (page : Page) (pages : list Page) :
  PushAll (page :: pages) (NewRouter [WithHistory 0])
  = Panic (SliceBoundsOutOfRange 1 0).
Proof. reflexivity. Qed.

(** C5.  With a history limit of 0, [Push] on the empty history panics for
    every page, whatever the context and the default page are. *)
Theorem Push_limit_zero_panics (c : Context) (d page : Page) :
  Push page (mkRouter c d 0 []) = Panic (SliceBoundsOutOfRange 1 0).
Proof. reflexivity. Qed.

(** ** Unmount before mount *)

(** With a limit of at least 2, pushing onto a history whose last entry is
    the page [q] unmounts [q] and then mounts the new page. *)
Lemma Push_unmount_before_mount (r : Router) (s : list Page) (q p : PageId) :
  2 <= int_of_uint (history r) ->
  pageHistory r = s ++ [Some q] ->
  Z.of_nat (length (pageHistory r)) <= int_of_uint (history r) ->
  exists s', Push (Some p) r
             = Ok (tt, set_pageHistory (s' ++ [Some q; Some p]) r,
                   [EUnmount q; EMount p]).
Proof.
  intros H2 Hs Hle.
  assert (Hv : valid_limit r) by (unfold valid_limit; lia).
  rewrite Push_valid by assumption. unfold pushed, evict.
  rewrite Hs in *. rewrite length_app in Hle. simpl in Hle.
  destruct (Z.leb_spec (int_of_uint (history r))
                       (Z.of_nat (length (s ++ [Some q])))) as [Hfull | _].
  - destruct s as [| x s]; [simpl in Hfull; lia |].
    exists s. simpl. rewrite drop_0. unfold unmount_last.
    rewrite last_snoc, <- app_assoc. reflexivity.
  - exists s. unfold unmount_last. rewrite last_snoc, <- app_assoc. reflexivity.
Qed.

(** C3.  With a history limit of 1 and the page [a] active, [Push] of [b]
    evicts [a] first, finds the history empty and sends no [Unmount]: the
    only call made is the [Mount] of [b]. *)
Theorem Push_limit_one_skips_unmount (c : Context) (d : Page) (a b : PageId) :
  Push (Some b) (mkRouter c d 1 [Some a])
  = Ok (tt, mkRouter c d 1 [Some b], [EMount b]).
Proof. reflexivity. Qed.

(** ** Dispatch on nil *)

(** C6.  Each of the four dispatch functions, given the nil page, returns
    normally, leaves the router as it is and calls no method of any page,
    whatever the router and whatever the pages' [Update] would do. *)
Theorem dispatch_nil_is_noop (impl : PageId -> Script) (r : Router) :
  mountPage None r = Ok (tt, r, [])
  /\ unmountPage None r = Ok (tt, r, [])
  /\ updatePage impl None r = Ok (tt, r, [])
  /\ drawPage None r = Ok (tt, r, []).
Proof. repeat split. Qed.

(** ** The shared context *)

Lemma CtxSetAll_ok (ws : list (string * any)) :
  forall r, exists c,
    CtxSetAll ws r = Ok (tt, set_ctx c r, [])
    /\ forall key, Value c (astring key)
                   = match lastWrite key ws with
                     | Some v => v
                     | None => Value (ctx r) (astring key)
                     end.
Proof.
  induction ws as [| [k v] ws IH]; intros r.
  - exists (ctx r). split; [destruct r; reflexivity | reflexivity].
  - destruct (IH (set_ctx (WithValue (ctx r) (astring k) v) r)) as (c & HA & HV).
    exists c. split.
    + simpl. unfold mbind, M_bind, CtxSetValue, modify.
      rewrite HA. reflexivity.
    + intros key. rewrite HV. simpl.
      destruct (lastWrite key ws); [reflexivity |].
      destruct (decide (k = key)) as [-> | Hne].
      * rewrite decide_True; reflexivity.
      * rewrite decide_False; [reflexivity | congruence].
Qed.

(** C9.  After any sequence of [CtxSetValue] calls, [CtxValue key] returns
    the value of the last call made for [key]; for a key with no such call
    it returns what the context the router started with holds for the key,
    which is nil when that context does not bind it. *)
Theorem CtxValue_last_write_wins
  (ws : list (string * any)) (key : string) (r : Router) :
  exists r',
    CtxSetAll ws r = Ok (tt, r', [])
    /\ CtxValue key r'
       = Ok (match lastWrite key ws with
             | Some v => v
             | None => Value (ctx r) (astring key)
             end, r', [])
    /\ (lastWrite key ws = None ->
        Value (ctx r) (astring key) = anil ->
        CtxValue key r' = Ok (anil, r', [])).
Proof.
  destruct (CtxSetAll_ok ws r) as (c & HA & HV).
  exists (set_ctx c r). split; [exact HA |].
  unfold CtxValue, mbind, M_bind, get. simpl. rewrite HV.
  split; [reflexivity |]. intros -> ->. reflexivity.
Qed.

(** ** One page mounted at a time *)

Lemma mounted_app (t t' : list Event) :
  mounted (t ++ t') = foldl track_event (mounted t) t'.
Proof. unfold mounted. apply foldl_app. Qed.

Lemma track_unmount_last (s : list Page) (r : Router) :
  pageHistory r = s ->
  foldl track_event (active r) (unmount_last s) = [].
Proof.
  intros <-. unfold active, unmount_last.
  destruct (last (pageHistory r)) as [[p |] |]; simpl; [| reflexivity ..].
  rewrite decide_True; reflexivity.
Qed.

Lemma last_evict (r : Router) :
  2 <= int_of_uint (history r) ->
  last (evict r) = last (pageHistory r).
Proof.
  unfold evict. intros H2.
  destruct (Z.leb_spec (int_of_uint (history r))
                       (Z.of_nat (length (pageHistory r)))) as [Hfull | _];
    [| reflexivity].
  destruct (pageHistory r) as [| x [| y s]]; simpl in Hfull; try lia.
  reflexivity.
Qed.

Lemma Push_one_mounted (page : Page) (r : Router) (t0 : list Event) :
  2 <= int_of_uint (history r) ->
  one_mounted r t0 ->
  exists r' t,
    Push page r = Ok (tt, r', t)
    /\ history r' = history r
    /\ one_mounted r' (t0 ++ t).
Proof.
  intros H2 [Hm Hle].
  assert (Hv : valid_limit r) by (unfold valid_limit; lia).
  rewrite Push_valid by assumption. unfold pushed.
  eexists _, _. split; [reflexivity |]. split; [reflexivity |]. split.
  - rewrite mounted_app, Hm, foldl_app.
    unfold unmount_last. rewrite (last_evict r H2).
    fold (unmount_last (pageHistory r)).
    rewrite (track_unmount_last (pageHistory r) r eq_refl).
    unfold active. cbn [pageHistory set_pageHistory]. rewrite last_snoc.
    destruct page; reflexivity.
  - cbn [pageHistory history set_pageHistory].
    pose proof (length_evict r Hv Hle). rewrite length_app. simpl. lia.
Qed.

Lemma Pop_one_mounted (r : Router) (t0 : list Event) :
  one_mounted r t0 ->
  exists page r' t,
    Pop r = Ok (page, r', t)
    /\ history r' = history r
    /\ one_mounted r' (t0 ++ t).
Proof.
  intros [Hm Hle].
  destruct (snoc_cases (pageHistory r)) as [Hs | (s & x & Hs)].
  - rewrite (Pop_nil r Hs). exists None, r, [].
    rewrite app_nil_r. repeat split; assumption.
  - rewrite (Pop_snoc r s x Hs).
    eexists _, _, _. split; [reflexivity |]. split; [reflexivity |]. split.
    + rewrite mounted_app, Hm, foldl_app.
      replace (calls EUnmount x) with (unmount_last (pageHistory r))
        by (unfold unmount_last; rewrite Hs, last_snoc; reflexivity).
      rewrite (track_unmount_last (pageHistory r) r eq_refl).
      unfold active, mount_last. cbn [pageHistory set_pageHistory].
      destruct (last s) as [[p |] |]; reflexivity.
    + cbn [pageHistory history set_pageHistory].
      rewrite Hs, length_app in Hle. simpl in Hle. lia.
Qed.

(** With a limit between 2 and [MaxInt], every sequence of [Push] and [Pop]
    calls completes, and after it the only page mounted and not unmounted
    is the active one. *)
Lemma runNavs_one_mounted (ns : list Nav) :
  forall r t0,
  2 <= int_of_uint (history r) ->
  one_mounted r t0 ->
  exists r' t,
    runNavs ns r = Ok (tt, r', t)
    /\ history r' = history r
    /\ one_mounted r' (t0 ++ t).
Proof.
  induction ns as [| n ns IH]; intros r t0 H2 Hinv; simpl.
  - exists r, []. rewrite app_nil_r. auto.
  - assert (Hstep : exists r1 t1,
      runNav n r = Ok (tt, r1, t1) /\ history r1 = history r
      /\ one_mounted r1 (t0 ++ t1)).
    { destruct n as [page |]; simpl.
      - apply Push_one_mounted; assumption.
      - destruct (Pop_one_mounted r t0 Hinv) as (page & r1 & t1 & HP & Hh & Hi).
        exists r1, t1. unfold mbind, M_bind. rewrite HP. simpl.
        rewrite app_nil_r. auto. }
    destruct Hstep as (r1 & t1 & HN & Hh1 & Hi1).
    assert (H21 : 2 <= int_of_uint (history r1)) by (rewrite Hh1; exact H2).
    destruct (IH r1 (t0 ++ t1) H21 Hi1) as (r2 & t2 & HR & Hh2 & Hi2).
    unfold mbind, M_bind. rewrite HN, HR.
    eexists _, _. split; [reflexivity |]. split; [congruence |].
    rewrite app_assoc. exact Hi2.
Qed.

Lemma runNavs_new_router (h : Z) (ns : list Nav) :
  2 <= h <= MaxInt ->
  exists r t,
    runNavs ns (NewRouter [WithHistory h]) = Ok (tt, r, t)
    /\ mounted t = active r
    /\ (length (mounted t) <= 1)%nat.
Proof.
  intros Hh.
  assert (Hi : int_of_uint (history (NewRouter [WithHistory h])) = h).
  { simpl. unfold uint_modulus, MaxInt in *.
    rewrite Z.mod_small by lia. apply int_of_uint_small.
    unfold MaxInt. lia. }
  destruct (runNavs_one_mounted ns (NewRouter [WithHistory h]) [])
    as (r & t & HR & _ & Hm & _).
  - rewrite Hi. lia.
  - split; [reflexivity |]. rewrite Hi. simpl. lia.
  - exists r, t. split; [exact HR |]. split; [exact Hm |].
    simpl in Hm. rewrite Hm. unfold active.
    destruct (last (pageHistory r)) as [[p |] |]; simpl; lia.
Qed.

(** C4.  With a history limit of 1, pushing page 1 and then page 2 leaves
    both mounted and neither unmounted: page 1 was evicted before the
    unmount step looked at the history. *)
Theorem limit_one_leaves_two_pages_mounted :
  runNavs [NavPush (Some 1%nat); NavPush (Some 2%nat)] (NewRouter [WithHistory 1])
  = Ok (tt, mkRouter Background None 1 [Some 2%nat], [EMount 1%nat; EMount 2%nat])
  /\ mounted [EMount 1%nat; EMount 2%nat] = [1%nat; 2%nat].
Proof. split; reflexivity. Qed.

(** ** Reachable routers *)

Lemma applyOptions_pageHistory (options : list RouterOption) :
  forall r0, pageHistory (foldl applyOption r0 options) = pageHistory r0.
Proof.
  induction options as [| o options IH]; intros r0; simpl.
  - reflexivity.
  - rewrite IH. destruct o; reflexivity.
Qed.

Lemma NewRouter_pageHistory (options : list RouterOption) :
  pageHistory (NewRouter options) = [].
Proof. unfold NewRouter. rewrite applyOptions_pageHistory. reflexivity. Qed.

Lemma Push_ok_valid (page : Page) (r r' : Router) (t : list Event) :
  pageHistory r = [] \/ valid_limit r ->
  Push page r = Ok (tt, r', t) ->
  valid_limit r' /\ history r' = history r.
Proof.
  intros Hinv HP.
  assert (Hv : valid_limit r).
  { destruct Hinv as [Hs | Hv]; [| exact Hv].
    rewrite Push_eq, Hs in HP. change (Z.of_nat (length [])) with 0 in HP.
    unfold valid_limit.
    destruct (Z.leb_spec (int_of_uint (history r)) 0); [discriminate | lia]. }
  rewrite Push_valid in HP by assumption. unfold pushed in HP.
  inversion HP; subst. split; [exact Hv | reflexivity].
Qed.

(** A router with an invalid limit never gets a page into its history. *)
Lemma runScript_inv (s : Script) :
  forall r r' t,
  pageHistory r = [] \/ valid_limit r ->
  runScript s r = Ok (tt, r', t) ->
  pageHistory r' = [] \/ valid_limit r'.
Proof.
  induction s as [| page k IH | k IH | key value k IH | key k IH];
    intros r r' t Hinv Hrun; simpl in Hrun.
  - inversion Hrun; subst. exact Hinv.
  - unfold mbind, M_bind in Hrun.
    destruct (Push page r) as [[[[] r1] t1] | e] eqn:HP; [| discriminate].
    destruct (Push_ok_valid page r r1 t1 Hinv HP) as [Hv1 _].
    destruct (runScript k r1) as [[[[] r2] t2] | e] eqn:Hk; [| discriminate].
    inversion Hrun; subst. eapply IH; [| exact Hk]. right; exact Hv1.
  - unfold mbind, M_bind in Hrun.
    destruct Hinv as [Hs | Hv].
    + rewrite (Pop_nil r Hs) in Hrun.
      destruct (runScript (k None) r) as [[[[] r2] t2] | e] eqn:Hk;
        [| discriminate].
      inversion Hrun; subst. eapply IH; [| exact Hk]. left; exact Hs.
    + destruct (Pop_total r) as (page & s & t0 & HP). rewrite HP in Hrun.
      destruct (runScript (k page) (set_pageHistory s r))
        as [[[[] r2] t2] | e] eqn:Hk; [| discriminate].
      inversion Hrun; subst. eapply IH; [| exact Hk]. right; exact Hv.
  - unfold mbind, M_bind, CtxSetValue, modify in Hrun.
    destruct (runScript k _) as [[[[] r2] t2] | e] eqn:Hk; [| discriminate].
    inversion Hrun; subst. eapply IH; [| exact Hk]. exact Hinv.
  - unfold mbind, M_bind, CtxValue, get in Hrun. simpl in Hrun.
    destruct (runScript (k _) r) as [[[[] r2] t2] | e] eqn:Hk; [| discriminate].
    inversion Hrun; subst. eapply IH; [| exact Hk]. exact Hinv.
Qed.

Lemma Reachable_inv (r : Router) :
  Reachable r -> pageHistory r = [] \/ valid_limit r.
Proof.
  induction 1 as [options | s r r' t _ IH Hrun].
  - left. apply NewRouter_pageHistory.
  - eapply runScript_inv; eassumption.
Qed.

Lemma Reachable_active_valid (r : Router) (p : PageId) :
  Reachable r -> top (pageHistory r) = Some p -> valid_limit r.
Proof.
  intros Hr Htop. destruct (Reachable_inv r Hr) as [Hs | Hv]; [| exact Hv].
  rewrite Hs in Htop. discriminate.
Qed.

(** ** The frame loop *)

(** The calls a page's [Update] causes through the router are [Mount] and
    [Unmount] calls only. *)
Lemma drawn_calls_EMount (page : Page) : drawn (calls EMount page) = [].
Proof. destruct page; reflexivity. Qed.

Lemma drawn_calls_EUnmount (page : Page) : drawn (calls EUnmount page) = [].
Proof. destruct page; reflexivity. Qed.

Lemma drawn_app (t t' : list Event) : drawn (t ++ t') = drawn t ++ drawn t'.
Proof. unfold drawn. apply omap_app. Qed.

Lemma drawn_Push (page : Page) (r r' : Router) (t : list Event) :
  Push page r = Ok (tt, r', t) -> drawn t = [].
Proof.
  rewrite Push_eq. unfold pushed, unmount_last. intros HP.
  assert (Hgo : forall s, drawn (match last s with
                                 | Some pg => calls EUnmount pg
                                 | None => []
                                 end ++ calls EMount page) = []).
  { intros s. rewrite drawn_app, drawn_calls_EMount.
    destruct (last s); [rewrite drawn_calls_EUnmount |]; reflexivity. }
  destruct (int_of_uint (history r) <=? Z.of_nat (length (pageHistory r)));
    [destruct (pageHistory r); [discriminate |] |];
    inversion HP; subst; apply Hgo.
Qed.

Lemma drawn_Pop (page : Page) (r r' : Router) (t : list Event) :
  Pop r = Ok (page, r', t) -> drawn t = [].
Proof.
  destruct (snoc_cases (pageHistory r)) as [Hs | (s & x & Hs)].
  - rewrite (Pop_nil r Hs). intros HP; inversion HP; reflexivity.
  - rewrite (Pop_snoc r s x Hs). intros HP; inversion HP; subst.
    rewrite drawn_app, drawn_calls_EUnmount. unfold mount_last.
    destruct (last s); [apply drawn_calls_EMount | reflexivity].
Qed.

Lemma drawn_runScript (s : Script) :
  forall r r' t, runScript s r = Ok (tt, r', t) -> drawn t = [].
Proof.
  induction s as [| page k IH | k IH | key value k IH | key k IH];
    intros r r' t Hrun; simpl in Hrun.
  - inversion Hrun; reflexivity.
  - unfold mbind, M_bind in Hrun.
    destruct (Push page r) as [[[[] r1] t1] | e] eqn:HP; [| discriminate].
    destruct (runScript k r1) as [[[[] r2] t2] | e] eqn:Hk; [| discriminate].
    inversion Hrun; subst. rewrite drawn_app.
    rewrite (drawn_Push _ _ _ _ HP), (IH _ _ _ Hk). reflexivity.
  - unfold mbind, M_bind in Hrun.
    destruct (Pop r) as [[[page r1] t1] | e] eqn:HP; [| discriminate].
    destruct (runScript (k page) r1) as [[[[] r2] t2] | e] eqn:Hk;
      [| discriminate].
    inversion Hrun; subst. rewrite drawn_app.
    rewrite (drawn_Pop _ _ _ _ HP), (IH _ _ _ _ Hk). reflexivity.
  - unfold mbind, M_bind, CtxSetValue, modify in Hrun.
    destruct (runScript k _) as [[[[] r2] t2] | e] eqn:Hk; [| discriminate].
    inversion Hrun; subst. simpl. eapply IH; exact Hk.
  - unfold mbind, M_bind, CtxValue, get in Hrun. simpl in Hrun.
    destruct (runScript (k _) r) as [[[[] r2] t2] | e] eqn:Hk; [| discriminate].
    inversion Hrun; subst. simpl. eapply IH; exact Hk.
Qed.

Lemma drawn_frame_log (p : PageId) (t : list Event) :
  drawn t = [] -> drawn (frame_log p t) = [p].
Proof.
  intros Ht. unfold frame_log.
  change (EUpdate p :: t ++ [EBeginDrawing; EDraw p; EEndDrawing])
    with ([EUpdate p] ++ t ++ [EBeginDrawing; EDraw p; EEndDrawing]).
  rewrite !drawn_app, Ht. reflexivity.
Qed.

Lemma resolvePage_active (r : Router) (p : PageId) :
  top (pageHistory r) = Some p -> resolvePage r = Ok (Some p, r, []).
Proof.
  intros Htop. unfold resolvePage, mbind, M_bind.
  rewrite current_eq, Htop. reflexivity.
Qed.

(** A turn that finds the page [p] on top of the history pushes nothing:
    [p]'s [Update] starts from the history as found, and [p] is drawn. *)
Lemma runFrame_active (f : Frame) (r : Router) (p : PageId) :
  valid_limit r ->
  top (pageHistory r) = Some p ->
  exists r' t,
    runScript (onUpdate f p) r = Ok (tt, r', t)
    /\ history r' = history r
    /\ runFrame f r = Ok (tt, r', frame_log p t)
    /\ drawn (frame_log p t) = [p].
Proof.
  intros Hv Htop.
  destruct (runScript_valid (onUpdate f p) r Hv) as (r' & t & Hrun & Hh & _).
  exists r', t. split; [exact Hrun |]. split; [exact Hh |]. split.
  - unfold runFrame, mbind at 1, M_bind at 1.
    rewrite (resolvePage_active r p Htop).
    unfold updatePage, mbind, M_bind, emit. rewrite Hrun. simpl.
    reflexivity.
  - apply drawn_frame_log. eapply drawn_runScript; exact Hrun.
Qed.

Lemma resolvePage_default (r : Router) (d : PageId) :
  valid_limit r ->
  top (pageHistory r) = None ->
  defaultPage r = Some d ->
  resolvePage r
  = Ok (Some d, set_pageHistory (evict r ++ [Some d]) r,
        unmount_last (evict r) ++ [EMount d]).
Proof.
  intros Hv Htop Hd. unfold resolvePage, mbind at 1, M_bind at 1.
  rewrite current_eq, Htop. unfold mbind, M_bind, get. rewrite Hd.
  rewrite Push_valid by assumption. unfold pushed. simpl.
  rewrite !app_nil_r. reflexivity.
Qed.

Lemma resolvePage_idle (r : Router) :
  top (pageHistory r) = None ->
  defaultPage r = None ->
  resolvePage r = Ok (None, r, []).
Proof.
  intros Htop Hd. unfold resolvePage, mbind at 1, M_bind at 1.
  rewrite current_eq, Htop. unfold mbind, M_bind, get. rewrite Hd.
  reflexivity.
Qed.

(** Under a valid limit a turn of the loop never faults. *)
Lemma runFrame_valid (f : Frame) (r : Router) :
  valid_limit r ->
  exists r' t, runFrame f r = Ok (tt, r', t) /\ history r' = history r.
Proof.
  intros Hv. destruct (top (pageHistory r)) as [p |] eqn:Htop.
  - destruct (runFrame_active f r p Hv Htop) as (r' & t & _ & Hh & HF & _).
    eauto.
  - destruct (defaultPage r) as [d |] eqn:Hd.
    + unfold runFrame, mbind at 1, M_bind at 1.
      rewrite (resolvePage_default r d Hv Htop Hd).
      destruct (runScript_valid (onUpdate f d)
                  (set_pageHistory (evict r ++ [Some d]) r) Hv)
        as (r' & t & Hrun & Hh & _).
      unfold updatePage, mbind, M_bind, emit. rewrite Hrun. simpl.
      eexists _, _. split; [reflexivity | exact Hh].
    + unfold runFrame, mbind at 1, M_bind at 1.
      rewrite (resolvePage_idle r Htop Hd). simpl. eauto.
Qed.

Lemma Run_valid (frames : list Frame) :
  forall r, valid_limit r -> exists r' t, Run frames r = Ok (tt, r', t).
Proof.
  induction frames as [| f rest IH]; intros r Hv; simpl.
  - eauto.
  - destruct (windowShouldClose f); [eexists _, _; reflexivity |].
    destruct (ctxDone f); [eexists _, _; reflexivity |].
    destruct (runFrame_valid f r Hv) as (r1 & t1 & HF & Hh).
    assert (Hv1 : valid_limit r1) by (unfold valid_limit; rewrite Hh; exact Hv).
    destruct (IH r1 Hv1) as (r2 & t2 & HR).
    unfold mbind, M_bind. rewrite HF, HR. eauto.
Qed.

(** Case analysis on the computation a hypothesis scrutinises, keeping the
    branch that returned. *)
Ltac case_result H r t E :=
  match type of H with
  | match ?c with Ok _ => _ | Panic _ => _ end = Ok _ =>
      destruct c as [[[[] r] t] | ?] eqn:E; [| discriminate H]
  end.

(** The routers that [Run] goes through are reachable: a turn is a [Push]
    of the default page, if any, followed by the body of an [Update]. *)
Lemma runFrame_Reachable (f : Frame) (r r' : Router) (t : list Event) :
  Reachable r -> runFrame f r = Ok (tt, r', t) -> Reachable r'.
Proof.
  intros Hreach HF. unfold runFrame, mbind at 1, M_bind at 1 in HF.
  assert (Hupd : forall r1 p t1,
            Reachable r1 ->
            (updatePage (onUpdate f) (Some p);; emit EBeginDrawing;;
             drawPage (Some p);; emit EEndDrawing) r1 = Ok (tt, r', t1) ->
            Reachable r').
  { intros r1 p t1 Hr1 Hrun.
    unfold updatePage, mbind, M_bind, emit in Hrun. simpl in Hrun.
    destruct (runScript (onUpdate f p) r1) as [[[[] r2] t2] | e] eqn:Hs;
      [| discriminate].
    inversion Hrun; subst. eapply reach_script; eassumption. }
  destruct (top (pageHistory r)) as [p |] eqn:Htop.
  - rewrite (resolvePage_active r p Htop) in HF.
    case_result HF r2 t2 Hrun.
    inversion HF; subst. eapply Hupd; eassumption.
  - unfold resolvePage, mbind at 1, M_bind at 1 in HF.
    rewrite current_eq, Htop in HF.
    unfold mbind at 1, M_bind at 1, get at 1 in HF.
    destruct (defaultPage r) as [d |] eqn:Hd.
    + unfold mbind at 1, M_bind at 1 in HF.
      destruct (Push (Some d) r) as [[[[] r1] t1] | e] eqn:HP; [| discriminate].
      assert (Hr1 : Reachable r1).
      { apply (reach_script (CallPush (Some d) Done) r r1 (t1 ++ []) Hreach).
        simpl. unfold mbind, M_bind. rewrite HP. reflexivity. }
      simpl in HF.
      case_result HF r2 t2 Hrun.
      inversion HF; subst. eapply Hupd; eassumption.
    + simpl in HF. inversion HF; subst. exact Hreach.
Qed.

Lemma Run_Reachable (frames : list Frame) :
  forall r r' t, Reachable r -> Run frames r = Ok (tt, r', t) -> Reachable r'.
Proof.
  induction frames as [| f rest IH]; intros r r' t Hreach HR; simpl in HR.
  - inversion HR; subst. exact Hreach.
  - destruct (windowShouldClose f); [inversion HR; subst; exact Hreach |].
    destruct (ctxDone f); [inversion HR; subst; exact Hreach |].
    unfold mbind, M_bind in HR.
    destruct (runFrame f r) as [[[[] r1] t1] | e] eqn:HF; [| discriminate].
    destruct (Run rest r1) as [[[[] r2] t2] | e] eqn:HR1; [| discriminate].
    inversion HR; subst.
    eapply IH; [eapply runFrame_Reachable; eassumption | exact HR1].
Qed.

(** What [Run] resolves as the page of a turn is the last entry of the
    history or, when that is nil or missing, the default page just pushed;
    either way the router it leaves has a valid limit and nothing has been
    drawn. *)
Lemma resolvePage_Some (r r0 : Router) (p : PageId) (t0 : list Event) :
  Reachable r ->
  resolvePage r = Ok (Some p, r0, t0) ->
  valid_limit r0 /\ drawn t0 = [].
Proof.
  intros Hreach Hres.
  destruct (top (pageHistory r)) as [q |] eqn:Htop.
  - rewrite (resolvePage_active r q Htop) in Hres. inversion Hres; subst.
    split; [eapply Reachable_active_valid; eassumption | reflexivity].
  - unfold resolvePage, mbind at 1, M_bind at 1 in Hres.
    rewrite current_eq, Htop in Hres.
    unfold mbind at 1, M_bind at 1, get at 1 in Hres.
    destruct (defaultPage r) as [d |]; [| discriminate].
    unfold mbind at 1, M_bind at 1 in Hres.
    destruct (Push (Some d) r) as [[[[] r1] t1] | e] eqn:HP; [| discriminate].
    simpl in Hres. inversion Hres; subst.
    destruct (Push_ok_valid _ _ _ _ (Reachable_inv r Hreach) HP) as [Hv _].
    split; [exact Hv |].
    rewrite !app_nil_r. eapply drawn_Push; exact HP.
Qed.

Lemma runFrame_resolved
  (f : Frame) (r r0 : Router) (p : PageId) (t0 : list Event) :
  valid_limit r0 ->
  resolvePage r = Ok (Some p, r0, t0) ->
  exists r' t,
    runScript (onUpdate f p) r0 = Ok (tt, r', t)
    /\ history r' = history r0
    /\ runFrame f r = Ok (tt, r', t0 ++ frame_log p t).
Proof.
  intros Hv Hres.
  destruct (runScript_valid (onUpdate f p) r0 Hv) as (r' & t & Hrun & Hh & _).
  exists r', t. split; [exact Hrun |]. split; [exact Hh |].
  unfold runFrame, mbind at 1, M_bind at 1. rewrite Hres.
  unfold updatePage, mbind, M_bind, emit. rewrite Hrun. reflexivity.
Qed.

(** C7.  Take a turn of [Run] in which the page [p] is resolved as the
    page to show (the last entry of the history, or the default page
    pushed on the spot), leaving the router [r0].  Whatever [p]'s [Update]
    does with [Push], [Pop] and the context, the turn completes and the
    one page it draws is [p]: after the calls of the resolution, its log is
    the [Update] of [p], the mounts and unmounts caused by the calls of
    [Update], and the drawing of [p].  The router as [Update] left it is
    what the remaining turns of the loop start from. *)
Theorem Run_update_takes_effect_next_frame
  (f : Frame) (rest : list Frame) (r r0 : Router) (p : PageId)
  (t0 : list Event) :
  Reachable r ->
  windowShouldClose f = false ->
  ctxDone f = false ->
  resolvePage r = Ok (Some p, r0, t0) ->
  exists r' t r'' t',
    runScript (onUpdate f p) r0 = Ok (tt, r', t)
    /\ runFrame f r = Ok (tt, r', t0 ++ frame_log p t)
    /\ drawn (t0 ++ frame_log p t) = [p]
    /\ Run rest r' = Ok (tt, r'', t')
    /\ Run (f :: rest) r = Ok (tt, r'', (t0 ++ frame_log p t) ++ t').
Proof.
  intros Hreach Hclose Hdone Hres.
  destruct (resolvePage_Some r r0 p t0 Hreach Hres) as [Hv Hd0].
  destruct (runFrame_resolved f r r0 p t0 Hv Hres) as (r' & t & Hrun & Hh & HF).
  assert (Hv' : valid_limit r') by (unfold valid_limit; rewrite Hh; exact Hv).
  destruct (Run_valid rest r' Hv') as (r'' & t' & HR).
  exists r', t, r'', t'. repeat split; try assumption.
  - rewrite drawn_app, Hd0. simpl. apply drawn_frame_log.
    eapply drawn_runScript; exact Hrun.
  - simpl. rewrite Hclose, Hdone. unfold mbind, M_bind. rewrite HF, HR.
    reflexivity.
Qed.

(** C8, as the code has it.  With a limit between 1 and [MaxInt] and a
    default page [d], a turn of [Run] that finds the history empty pushes
    [d] once: [d] is mounted once, becomes the only entry, and is the page
    updated and drawn in that turn.  A turn that finds a page [q] on top of
    the history pushes nothing: it goes on to [q]'s [Update] with the
    router and the log as they were. *)
Theorem Run_default_pushed_once
  (f : Frame) (r : Router) (d : PageId) :
  valid_limit r ->
  defaultPage r = Some d ->
  pageHistory r = [] ->
  resolvePage r = Ok (Some d, set_pageHistory [Some d] r, [EMount d])
  /\ (exists r' t,
        runScript (onUpdate f d) (set_pageHistory [Some d] r) = Ok (tt, r', t)
        /\ runFrame f r = Ok (tt, r', EMount d :: frame_log d t))
  /\ (forall (f2 : Frame) (r2 : Router) (q : PageId),
        valid_limit r2 ->
        current r2 = Ok (Some q, r2, []) ->
        resolvePage r2 = Ok (Some q, r2, [])
        /\ exists r3 t2,
             runScript (onUpdate f2 q) r2 = Ok (tt, r3, t2)
             /\ runFrame f2 r2 = Ok (tt, r3, frame_log q t2)).
Proof.
  intros Hv Hd Hs.
  assert (Hres : resolvePage r
                 = Ok (Some d, set_pageHistory [Some d] r, [EMount d])).
  { rewrite (resolvePage_default r d Hv); [| rewrite Hs; reflexivity | exact Hd].
    unfold evict. rewrite Hs. simpl.
    destruct (int_of_uint (history r) <=? Z.of_nat 0); reflexivity. }
  split; [exact Hres |]. split.
  - destruct (runScript_valid (onUpdate f d) (set_pageHistory [Some d] r) Hv)
      as (r' & t & Hrun & _ & _).
    exists r', t. split; [exact Hrun |].
    unfold runFrame, mbind at 1, M_bind at 1. rewrite Hres.
    unfold updatePage, mbind, M_bind, emit. rewrite Hrun. reflexivity.
  - intros f2 r2 q Hv2 Hcur. rewrite current_eq in Hcur.
    assert (Htop : top (pageHistory r2) = Some q) by congruence.
    split; [apply resolvePage_active; exact Htop |].
    destruct (runFrame_active f2 r2 q Hv2 Htop) as (r3 & t2 & Hrun & _ & HF & _).
    eauto.
Qed.

(** C10, as the code has it.  When the history has room under the limit,
    [Push] of the nil page completes: nil is appended, the history grows by
    one entry and stays within the limit, and the only call made is the
    [Unmount] of the page that was active; no [Mount] is made.  After it
    [current] returns nil, as it does on the empty history, and a turn of
    [Run] takes the branch of the empty history: with a default page [d] it
    calls [Push] of [d], which mounts [d] and makes it the last entry,
    directly above the nil entry when the limit is at least 2 and as the
    only entry when the limit is 1; without a default page it skips the
    turn. *)
Theorem Push_nil_entry_counts_as_empty (r : Router) :
  Z.of_nat (length (pageHistory r)) < int_of_uint (history r) ->
  let r1 := set_pageHistory (pageHistory r ++ [None]) r in
  Push None r = Ok (tt, r1, unmount_last (pageHistory r))
  /\ mountPage None r1 = Ok (tt, r1, [])
  /\ ~ (exists p, In (EMount p) (unmount_last (pageHistory r)))
  /\ length (pageHistory r1) = S (length (pageHistory r))
  /\ Z.of_nat (length (pageHistory r1)) <= int_of_uint (history r1)
  /\ current r1 = Ok (None, r1, [])
  /\ current (set_pageHistory [] r) = Ok (None, set_pageHistory [] r, [])
  /\ (forall d, defaultPage r = Some d ->
        exists s,
          Push (Some d) r1 = Ok (tt, set_pageHistory (s ++ [Some d]) r1, [EMount d])
          /\ resolvePage r1
             = Ok (Some d, set_pageHistory (s ++ [Some d]) r1, [EMount d])
          /\ (2 <= int_of_uint (history r) -> last s = Some None)
          /\ (int_of_uint (history r) = 1 -> s = []))
  /\ (defaultPage r = None -> resolvePage r1 = Ok (None, r1, [])).
Proof.
  intros Hroom r1.
  assert (Hv1 : valid_limit r1) by (unfold valid_limit; simpl; lia).
  assert (Htop1 : top (pageHistory r1) = None).
  { unfold r1, top. simpl. rewrite last_snoc. reflexivity. }
  assert (Hlen1 : length (pageHistory r1) = S (length (pageHistory r))).
  { unfold r1. simpl. rewrite length_app. simpl. lia. }
  split.
  { rewrite (Push_room None r Hroom). unfold pushed. simpl.
    rewrite app_nil_r. reflexivity. }
  split; [reflexivity |]. split.
  { intros [p Hin]. unfold unmount_last in Hin.
    destruct (last (pageHistory r)) as [[q |] |]; simpl in Hin;
      [destruct Hin as [Heq | []]; discriminate | destruct Hin ..]. }
  split; [exact Hlen1 |]. split; [rewrite Hlen1; simpl; lia |].
  split; [rewrite current_eq, Htop1; reflexivity |].
  split; [rewrite current_eq; reflexivity |]. split.
  - intros d Hd.
    assert (Hunm : unmount_last (evict r1) = []).
    { unfold unmount_last, evict.
      destruct (int_of_uint (history r1) <=? Z.of_nat (length (pageHistory r1))).
      - unfold r1. simpl pageHistory.
        destruct (pageHistory r) as [| x s]; simpl; [reflexivity |].
        rewrite drop_0, last_snoc. reflexivity.
      - unfold r1. simpl pageHistory. rewrite last_snoc. reflexivity. }
    exists (evict r1). split; [| split; [| split]].
    + rewrite Push_valid by assumption. unfold pushed. rewrite Hunm.
      reflexivity.
    + rewrite (resolvePage_default r1 d Hv1 Htop1 Hd), Hunm. reflexivity.
    + intros H2. rewrite last_evict by exact H2.
      unfold r1. simpl. apply last_snoc.
    + intros H1. unfold evict. rewrite Hlen1.
      change (history r1) with (history r). rewrite H1.
      destruct (pageHistory r) as [| x s] eqn:Hs; [reflexivity |].
      simpl in Hroom. lia.
  - intros Hd. apply resolvePage_idle; [exact Htop1 | exact Hd].
Qed.

(** C10, as stated, fails in its last part when the limit is 1.  On a new
    router with limit 1 and default page 7 there is room for one entry;
    [Push] of nil fills it.  The turn of [Run] that follows calls [Push] of
    page 7, which first evicts the nil entry: page 7 ends up as the only
    entry, with no nil entry below it. *)
Lemma Run_default_push_evicts_nil_entry_at_limit_one :
  Z.of_nat (length (pageHistory Example.single_slot))
    < int_of_uint (history Example.single_slot)
  /\ Push None Example.single_slot
     = Ok (tt, mkRouter Background (Some 7%nat) 1 [None], [])
  /\ Run [Example.frame false false] (mkRouter Background (Some 7%nat) 1 [None])
     = Ok (tt, mkRouter Background (Some 7%nat) 1 [Some 7%nat],
           [EMount 7%nat; EUpdate 7%nat;
            EBeginDrawing; EDraw 7%nat; EEndDrawing])
  /\ ~ In None (pageHistory (mkRouter Background (Some 7%nat) 1 [Some 7%nat])).
Proof.
  repeat split; try reflexivity.
  simpl. intros [Heq | []]. discriminate.
Qed.

(** C8, as stated, fails: a history that is not empty but has nil as its
    last entry is taken for empty.  On a new router with default page 7
    (limit 10), the first turn pushes page 7, whose [Update] pushes nil;
    the history is then [7; nil].  The second turn finds [current] nil and
    pushes and mounts page 7 again, on a history that was never empty in
    between. *)
Lemma Run_pushes_default_again_over_nil_entry :
  Run [Example.push_nil_frame] (NewRouter [WithDefaultPage (Some 7%nat)])
  = Ok (tt, mkRouter Background (Some 7%nat) 10 [Some 7%nat; None],
        [EMount 7%nat; EUpdate 7%nat; EUnmount 7%nat;
         EBeginDrawing; EDraw 7%nat; EEndDrawing])
  /\ pageHistory (mkRouter Background (Some 7%nat) 10 [Some 7%nat; None]) <> []
  /\ resolvePage (mkRouter Background (Some 7%nat) 10 [Some 7%nat; None])
     = Ok (Some 7%nat,
           mkRouter Background (Some 7%nat) 10 [Some 7%nat; None; Some 7%nat],
           [EMount 7%nat])
  /\ Run [Example.push_nil_frame; Example.frame false false]
         (NewRouter [WithDefaultPage (Some 7%nat)])
     = Ok (tt,
           mkRouter Background (Some 7%nat) 10 [Some 7%nat; None; Some 7%nat],
           [EMount 7%nat; EUpdate 7%nat; EUnmount 7%nat;
            EBeginDrawing; EDraw 7%nat; EEndDrawing;
            EMount 7%nat; EUpdate 7%nat;
            EBeginDrawing; EDraw 7%nat; EEndDrawing]).
Proof. repeat split; try reflexivity. discriminate. Qed.

(** ** The example application, run *)

Example Run_example :
  Run [Example.frame true false; Example.frame false false;
       Example.frame false true; Example.frame false false]
      Example.main_router
  = Ok (tt,
        mkRouter Background (Some 1%nat) 15 [Some 1%nat],
        [EMount 1; EUpdate 1; EUnmount 1; EMount 2;
         EBeginDrawing; EDraw 1; EEndDrawing;
         EUpdate 2; EBeginDrawing; EDraw 2; EEndDrawing;
         EUpdate 2; EUnmount 2; EMount 1;
         EBeginDrawing; EDraw 2; EEndDrawing;
         EUpdate 1; EBeginDrawing; EDraw 1; EEndDrawing]%nat).
Proof. reflexivity. Qed.

Lemma Run_update_takes_effect_next_frame_witness :
  exists r' t r'' t',
    runScript (Example.HomePage_Update true false 1%nat) Example.started
    = Ok (tt, r', t)
    /\ runFrame (Example.frame true false) Example.main_router
       = Ok (tt, r', [EMount 1%nat] ++ frame_log 1%nat t)
    /\ drawn ([EMount 1%nat] ++ frame_log 1%nat t) = [1%nat]
    /\ Run [Example.frame false false] r' = Ok (tt, r'', t')
    /\ Run [Example.frame true false; Example.frame false false]
           Example.main_router
       = Ok (tt, r'', ([EMount 1%nat] ++ frame_log 1%nat t) ++ t').
Proof.
  apply (Run_update_takes_effect_next_frame
           (Example.frame true false) [Example.frame false false]
           Example.main_router Example.started 1%nat [EMount 1%nat]).
  - exact (reach_new [WithHistory 15; WithDefaultPage (Some 1%nat)]).
  - reflexivity.
  - reflexivity.
  - reflexivity.
Defined.

Lemma Run_default_pushed_once_witness :
  valid_limit Example.main_router
  /\ resolvePage Example.main_router
     = Ok (Some 1%nat, Example.started, [EMount 1%nat]).
Proof.
  split; [reflexivity |].
  apply (Run_default_pushed_once (Example.frame false false)
           Example.main_router 1%nat); reflexivity.
Defined.

Lemma CtxValue_last_write_wins_witness :
  exists r',
    CtxSetAll [("lang", astring "en"); ("volume", aint 3); ("lang", astring "fr")]%string
              (NewRouter []) = Ok (tt, r', [])
    /\ CtxValue "theme" r' = Ok (anil, r', []).
Proof.
  destruct (CtxValue_last_write_wins
              [("lang", astring "en"); ("volume", aint 3); ("lang", astring "fr")]%string
              "theme" (NewRouter [])) as (r' & Hset & _ & Hnil).
  exists r'. split; [exact Hset |]. apply Hnil; reflexivity.
Defined.

Lemma Push_nil_entry_counts_as_empty_witness :
  Z.of_nat (length (pageHistory Example.started))
    < int_of_uint (history Example.started)
  /\ Push None Example.started
     = Ok (tt, set_pageHistory [Some 1%nat; None] Example.started,
           [EUnmount 1%nat]).
Proof.
  split; [reflexivity |].
  apply (Push_nil_entry_counts_as_empty Example.started). reflexivity.
Defined.

(** * Further properties of the router *)

(** ** NewRouter and its options *)

Lemma applyOptions_fields (options : list RouterOption) :
  forall r0,
  history (foldl applyOption r0 options)
  = match lastWithHistory options with
    | Some n => n mod uint_modulus
    | None => history r0
    end
  /\ defaultPage (foldl applyOption r0 options)
     = match lastWithDefaultPage options with
       | Some page => page
       | None => defaultPage r0
       end
  /\ ctx (foldl applyOption r0 options)
     = match lastWithContext options with
       | Some c => c
       | None => ctx r0
       end.
Proof.
  induction options as [| o rest IH]; intros r0; simpl.
  - auto.
  - destruct (IH (applyOption r0 o)) as (Hh & Hd & Hc).
    rewrite Hh, Hd, Hc.
    destruct (lastWithHistory rest), (lastWithDefaultPage rest),
      (lastWithContext rest), o; auto.
Qed.

(** X1.  A new router has an empty history whatever its options are; its
    limit, default page and context are those of the last [WithHistory],
    [WithDefaultPage] and [WithContext] option, and 10, nil and the
    background context where there is no such option. *)
Theorem NewRouter_last_option_wins (options : list RouterOption) :
  pageHistory (NewRouter options) = []
  /\ history (NewRouter options)
     = match lastWithHistory options with
       | Some n => n mod uint_modulus
       | None => DefaultHistory
       end
  /\ defaultPage (NewRouter options)
     = match lastWithDefaultPage options with
       | Some page => page
       | None => None
       end
  /\ ctx (NewRouter options)
     = match lastWithContext options with
       | Some c => c
       | None => Background
       end.
Proof.
  split; [apply NewRouter_pageHistory |].
  apply (applyOptions_fields options (mkRouter Background None DefaultHistory [])).
Qed.

(** ** current, Push and Pop one call at a time *)

(** X2.  [current] never faults, makes no call and leaves the router as it
    is; it returns the last entry of the history, and nil when the history
    is empty. *)
Theorem current_reads_last_entry (r : Router) :
  current r = Ok (match last (pageHistory r) with
                  | Some page => page
                  | None => None
                  end, r, []).
Proof. apply current_eq. Qed.

Lemma Push_fault_cases (page : Page) (r : Router) :
  (Push page r = Panic (SliceBoundsOutOfRange 1 0)
   <-> int_of_uint (history r) <= 0 /\ pageHistory r = [])
  /\ (forall e, Push page r = Panic e -> e = SliceBoundsOutOfRange 1 0)
  /\ ((exists r' t, Push page r = Ok (tt, r', t))
      <-> ~ (int_of_uint (history r) <= 0 /\ pageHistory r = [])).
Proof.
  pose proof (Push_eq page r) as HP. unfold pushed in HP.
  destruct (Z.leb_spec (int_of_uint (history r))
                       (Z.of_nat (length (pageHistory r)))) as [Hle | Hlt];
    destruct (pageHistory r) as [| x s]; simpl in *; rewrite HP.
  - split; [| split]; [split | | split].
    + intros _. split; [lia | reflexivity].
    + reflexivity.
    + intros e He. congruence.
    + intros (r' & t & H). discriminate.
    + intros Hn. exfalso. apply Hn. split; [lia | reflexivity].
  - split; [| split]; [split | | split].
    + discriminate.
    + intros [_ H]. discriminate.
    + discriminate.
    + intros _ [_ H]. discriminate.
    + eauto.
  - split; [| split]; [split | | split].
    + discriminate.
    + intros [H _]. lia.
    + discriminate.
    + intros _ [H _]. lia.
    + eauto.
  - split; [| split]; [split | | split].
    + discriminate.
    + intros [_ H]. discriminate.
    + discriminate.
    + intros _ [_ H]. discriminate.
    + eauto.
Qed.

(** X3.  [Push] faults in exactly one situation: the history is empty and
    the limit, read as an [int], is not positive (a limit of 0, or of
    [2^63] and more).  The fault is the slice expression [pageHistory[1:]];
    in every other state [Push] returns. *)
Theorem Push_faults_iff (page : Page) (r : Router) :
  (Push page r = Panic (SliceBoundsOutOfRange 1 0)
   <-> int_of_uint (history r) <= 0 /\ pageHistory r = [])
  /\ (forall e, Push page r = Panic e -> e = SliceBoundsOutOfRange 1 0)
  /\ ((exists r' t, Push page r = Ok (tt, r', t))
      <-> ~ (int_of_uint (history r) <= 0 /\ pageHistory r = [])).
Proof. exact (Push_fault_cases page r). Qed.


Lemma Pop_takes_last (r : Router) :
  exists page t,
    Pop r = Ok (page,
                set_pageHistory
                  (take (length (pageHistory r) - 1) (pageHistory r)) r,
                t).
Proof.
  destruct (snoc_cases (pageHistory r)) as [Hs | (s & x & Hs)].
  - rewrite (Pop_nil r Hs). exists None, []. rewrite Hs. simpl.
    rewrite <- Hs, set_pageHistory_id. reflexivity.
  - rewrite (Pop_snoc r s x Hs). eexists _, _. rewrite Hs.
    replace (length (s ++ [x]) - 1)%nat with (length s)
      by (rewrite length_app; simpl; lia).
    rewrite take_app_length. reflexivity.
Qed.

(** X4.  [Pop] never faults, in any state of the router: it removes the
    last entry of the history, if there is one, and changes nothing else of
    the router. *)
Theorem Pop_never_faults (r : Router) :
  exists page t,
    Pop r = Ok (page,
                set_pageHistory
                  (take (length (pageHistory r) - 1) (pageHistory r)) r,
                t).
Proof. exact (Pop_takes_last r). Qed.


(** X5.  On a history of two entries or more, [Pop] returns the entry it
    removes, after sending [Unmount] to it and then [Mount] to the entry
    before it, which is active again. *)
Theorem Pop_remounts_previous (r : Router) (s : list Page) (y x : PageId) :
  pageHistory r = s ++ [Some y; Some x] ->
  Pop r = Ok (Some x, set_pageHistory (s ++ [Some y]) r, [EUnmount x; EMount y])
  /\ current (set_pageHistory (s ++ [Some y]) r)
     = Ok (Some y, set_pageHistory (s ++ [Some y]) r, []).
Proof.
  intros Hs. split.
  - apply (Pop_returns_last r s (Some y) (Some x)).
    rewrite Hs, <- app_assoc. reflexivity.
  - rewrite current_eq. unfold top. simpl. rewrite last_snoc. reflexivity.
Qed.

Lemma Pop_remounts_previous_witness :
  Pop (mkRouter Background None 10 [Some 1%nat; Some 2%nat; Some 3%nat])
  = Ok (Some 3%nat, mkRouter Background None 10 [Some 1%nat; Some 2%nat],
        [EUnmount 3%nat; EMount 2%nat]).
Proof.
  apply (Pop_remounts_previous
           (mkRouter Background None 10 [Some 1%nat; Some 2%nat; Some 3%nat])
           [Some 1%nat] 2%nat 3%nat).
  reflexivity.
Defined.

Lemma Push_result_fields (page : Page) (r r' : Router) (t : list Event) :
  Push page r = Ok (tt, r', t) ->
  current r' = Ok (page, r', [])
  /\ last (pageHistory r') = Some page
  /\ history r' = history r
  /\ defaultPage r' = defaultPage r
  /\ ctx r' = ctx r.
Proof.
  rewrite Push_eq. unfold pushed. intros HP.
  assert (Hgo : forall s, r' = set_pageHistory (s ++ [page]) r ->
            current r' = Ok (page, r', [])
            /\ last (pageHistory r') = Some page
            /\ history r' = history r
            /\ defaultPage r' = defaultPage r
            /\ ctx r' = ctx r).
  { intros s ->. rewrite current_eq. unfold top. simpl.
    rewrite last_snoc. auto. }
  destruct (int_of_uint (history r) <=? Z.of_nat (length (pageHistory r)));
    [destruct (pageHistory r) as [| x s]; [discriminate |] |];
    inversion HP; subst; eapply Hgo; reflexivity.
Qed.

(** X6.  Whenever [Push] returns, the page pushed is the last entry of the
    history and is what [current] returns next, the nil page included; the
    limit, the default page and the context are as before. *)
Theorem Push_then_current (page : Page) (r r' : Router) (t : list Event) :
  Push page r = Ok (tt, r', t) ->
  current r' = Ok (page, r', [])
  /\ last (pageHistory r') = Some page
  /\ history r' = history r
  /\ defaultPage r' = defaultPage r
  /\ ctx r' = ctx r.
Proof. exact (Push_result_fields page r r' t). Qed.


Lemma Push_then_current_witness :
  current (mkRouter Background None 1 [Some 5%nat])
  = Ok (Some 5%nat, mkRouter Background None 1 [Some 5%nat], []).
Proof.
  apply (Push_then_current (Some 5%nat)
           (mkRouter Background None 1 [Some 4%nat])
           (mkRouter Background None 1 [Some 5%nat]) [EMount 5%nat]).
  reflexivity.
Defined.

(** ** Push followed by Pop *)

Lemma Pop_after_pushed (page : Page) (s : list Page) (r : Router) :
  Pop (set_pageHistory (s ++ [page]) r)
  = Ok (match s with [] => None | _ => page end,
        set_pageHistory s r,
        calls EUnmount page ++ mount_last s).
Proof.
  rewrite (Pop_snoc (set_pageHistory (s ++ [page]) r) s page eq_refl).
  reflexivity.
Qed.

(** X7.  When the history has room under the limit, [Push] followed by
    [Pop] gives the router back exactly as it was.  The calls made are
    [Unmount] of the active page, [Mount] and [Unmount] of the page pushed,
    and [Mount] of the active page again.  [Pop] returns the page pushed,
    unless the history was empty, in which case it returns nil. *)
Theorem Push_Pop_restores_router (page : Page) (r : Router) :
  Z.of_nat (length (pageHistory r)) < int_of_uint (history r) ->
  (Push page;; Pop) r
  = Ok (match pageHistory r with [] => None | _ => page end,
        r,
        (unmount_last (pageHistory r) ++ calls EMount page)
        ++ calls EUnmount page ++ mount_last (pageHistory r)).
Proof.
  intros Hroom. unfold mbind, M_bind.
  rewrite (Push_room page r Hroom). unfold pushed.
  rewrite Pop_after_pushed, set_pageHistory_id. reflexivity.
Qed.

Lemma Push_Pop_restores_router_witness :
  (Push (Some 2%nat);; Pop) Example.started
  = Ok (Some 2%nat, Example.started,
        [EUnmount 1%nat; EMount 2%nat; EUnmount 2%nat; EMount 1%nat]).
Proof.
  apply (Push_Pop_restores_router (Some 2%nat) Example.started).
  reflexivity.
Defined.

(** X8.  On a full history of two entries or more, [Push] followed by
    [Pop] does not give the history back: the oldest entry has been
    evicted and stays lost, while the page pushed is returned and the
    entry that was active is mounted again. *)
Theorem Push_Pop_on_full_history_loses_oldest
  (page oldest : Page) (s : list Page) (r : Router) :
  pageHistory r = oldest :: s ->
  s <> [] ->
  0 < int_of_uint (history r) <= Z.of_nat (length (pageHistory r)) ->
  (Push page;; Pop) r
  = Ok (page,
        set_pageHistory s r,
        (unmount_last s ++ calls EMount page)
        ++ calls EUnmount page ++ mount_last s).
Proof.
  intros Hs Hne [Hv Hfull]. unfold mbind, M_bind.
  rewrite (Push_valid page r Hv). unfold pushed, evict.
  destruct (Z.leb_spec (int_of_uint (history r))
                       (Z.of_nat (length (pageHistory r)))); [| lia].
  rewrite Hs. simpl drop. rewrite drop_0, Pop_after_pushed.
  destruct s; [contradiction | reflexivity].
Qed.

Lemma Push_Pop_on_full_history_loses_oldest_witness :
  (Push (Some 4%nat);; Pop)
    (mkRouter Background None 3 [Some 1%nat; Some 2%nat; Some 3%nat])
  = Ok (Some 4%nat,
        mkRouter Background None 3 [Some 2%nat; Some 3%nat],
        [EUnmount 3%nat; EMount 4%nat; EUnmount 4%nat; EMount 3%nat]).
Proof.
  apply (Push_Pop_on_full_history_loses_oldest (Some 4%nat) (Some 1%nat)
           [Some 2%nat; Some 3%nat]
           (mkRouter Background None 3 [Some 1%nat; Some 2%nat; Some 3%nat])).
  - reflexivity.
  - discriminate.
  - split; [reflexivity | discriminate].
Defined.

(** ** Eviction *)

(** X9.  With a limit of at least 2 and a history within it, the calls
    [Push] makes do not depend on whether an entry is evicted: they are the
    [Unmount] of the entry that was last and the [Mount] of the page
    pushed, each left out when the page is nil.  The evicted entry gets no
    call of its own. *)
Theorem Push_eviction_makes_no_call (page : Page) (r : Router) :
  2 <= int_of_uint (history r) ->
  Z.of_nat (length (pageHistory r)) <= int_of_uint (history r) ->
  exists s,
    Push page r
    = Ok (tt, set_pageHistory (s ++ [page]) r,
          unmount_last (pageHistory r) ++ calls EMount page)
    /\ (Z.of_nat (length (pageHistory r)) < int_of_uint (history r) ->
        s = pageHistory r)
    /\ (Z.of_nat (length (pageHistory r)) = int_of_uint (history r) ->
        s = drop 1 (pageHistory r)).
Proof.
  intros H2 Hle.
  assert (Hv : valid_limit r) by (unfold valid_limit; lia).
  exists (evict r). split; [| split].
  - rewrite (Push_valid page r Hv). unfold pushed, unmount_last.
    rewrite (last_evict r H2). reflexivity.
  - intros Hroom. unfold evict.
    destruct (Z.leb_spec (int_of_uint (history r))
                         (Z.of_nat (length (pageHistory r)))); [lia | reflexivity].
  - intros Hfull. unfold evict.
    destruct (Z.leb_spec (int_of_uint (history r))
                         (Z.of_nat (length (pageHistory r)))); [reflexivity | lia].
Qed.

Lemma Push_eviction_makes_no_call_witness :
  exists s,
    Push (Some 4%nat)
         (mkRouter Background None 3 [Some 1%nat; Some 2%nat; Some 3%nat])
    = Ok (tt,
          set_pageHistory (s ++ [Some 4%nat])
            (mkRouter Background None 3 [Some 1%nat; Some 2%nat; Some 3%nat]),
          [EUnmount 3%nat; EMount 4%nat])
    /\ s = [Some 2%nat; Some 3%nat].
Proof.
  destruct (Push_eviction_makes_no_call (Some 4%nat)
              (mkRouter Background None 3 [Some 1%nat; Some 2%nat; Some 3%nat]))
    as (s & HP & _ & Hfull).
  - discriminate.
  - discriminate.
  - exists s. split; [exact HP | apply Hfull; reflexivity].
Defined.

Lemma window_all {A : Type} (L : nat) (l : list A) :
  (length l <= L)%nat -> window L l = l.
Proof.
  intros Hle. unfold window.
  replace (length l - L)%nat with 0%nat by lia. apply drop_0.
Qed.

Lemma length_window {A : Type} (L : nat) (l : list A) :
  (length (window L l) <= L)%nat.
Proof. unfold window. rewrite length_drop. lia. Qed.

Lemma window_app {A : Type} (L : nat) (a b : list A) :
  window L (window L a ++ b) = window L (a ++ b).
Proof.
  unfold window. rewrite !length_app, length_drop.
  destruct (Nat.le_gt_cases (length a) L) as [Hle | Hgt].
  - replace (length a - L)%nat with 0%nat by lia.
    rewrite drop_0. f_equal. lia.
  - replace (length a - (length a - L) + length b - L)%nat
      with (length b) by lia.
    replace (length a + length b - L)%nat
      with ((length a - L) + length b)%nat by lia.
    rewrite <- drop_drop.
    rewrite (drop_app_le a b (length a - L)) by lia.
    reflexivity.
Qed.

Lemma evict_window (r : Router) :
  valid_limit r ->
  Z.of_nat (length (pageHistory r)) <= int_of_uint (history r) ->
  forall page,
    evict r ++ [page]
    = window (Z.to_nat (int_of_uint (history r))) (pageHistory r ++ [page]).
Proof.
  unfold valid_limit, evict, window. intros Hv Hle page.
  rewrite length_app. simpl.
  destruct (Z.leb_spec (int_of_uint (history r))
                       (Z.of_nat (length (pageHistory r)))) as [Hfull | Hroom].
  - replace (length (pageHistory r) + 1
             - Z.to_nat (int_of_uint (history r)))%nat with 1%nat by lia.
    destruct (pageHistory r); [simpl in Hfull; lia | reflexivity].
  - replace (length (pageHistory r) + 1
             - Z.to_nat (int_of_uint (history r)))%nat with 0%nat by lia.
    reflexivity.
Qed.

Lemma PushAll_window (pages : list Page) :
  forall r,
  0 < int_of_uint (history r) ->
  Z.of_nat (length (pageHistory r)) <= int_of_uint (history r) ->
  exists t,
    PushAll pages r
    = Ok (tt,
          set_pageHistory
            (window (Z.to_nat (int_of_uint (history r)))
                    (pageHistory r ++ pages)) r,
          t).
Proof.
  induction pages as [| page pages IH]; intros r Hv Hle; simpl.
  - exists []. rewrite app_nil_r, window_all by lia.
    rewrite set_pageHistory_id. reflexivity.
  - unfold mbind, M_bind. rewrite (Push_valid page r Hv). unfold pushed.
    rewrite (evict_window r Hv Hle).
    set (L := Z.to_nat (int_of_uint (history r))).
    set (r1 := set_pageHistory (window L (pageHistory r ++ [page])) r).
    destruct (IH r1) as (t & HA).
    + exact Hv.
    + unfold r1. simpl. pose proof (length_window L (pageHistory r ++ [page])).
      unfold valid_limit in Hv. fold L in H. lia.
    + rewrite HA. eexists. unfold r1. simpl. fold L.
      rewrite window_app, <- app_assoc. reflexivity.
Qed.

(** X10.  With a limit [L] between 1 and [MaxInt] and a history within it,
    any sequence of [Push] calls completes and leaves as history the last
    [L] entries of the old history followed by the pages pushed: the
    entries evicted are always the oldest ones. *)
Theorem PushAll_keeps_newest (pages : list Page) :
  forall r,
  0 < int_of_uint (history r) ->
  Z.of_nat (length (pageHistory r)) <= int_of_uint (history r) ->
  exists t,
    PushAll pages r
    = Ok (tt,
          set_pageHistory
            (window (Z.to_nat (int_of_uint (history r)))
                    (pageHistory r ++ pages)) r,
          t).
Proof. exact (PushAll_window pages). Qed.


Lemma PushAll_keeps_newest_witness :
  exists t,
    PushAll [Some 1%nat; Some 2%nat; Some 3%nat; Some 4%nat; Some 5%nat]
            (NewRouter [WithHistory 3])
    = Ok (tt, mkRouter Background None 3 [Some 3%nat; Some 4%nat; Some 5%nat], t).
Proof.
  apply (PushAll_keeps_newest
           [Some 1%nat; Some 2%nat; Some 3%nat; Some 4%nat; Some 5%nat]
           (NewRouter [WithHistory 3])).
  - reflexivity.
  - discriminate.
Defined.

(** ** Pushing and popping back *)

Lemma popped_snoc (s : list Page) (x : Page) :
  popped (s ++ [x]) = match s with [] => None | _ => x end :: popped s.
Proof.
  destruct s as [| y s]; [reflexivity |].
  simpl. rewrite reverse_snoc. reflexivity.
Qed.

Lemma PopN_all (s : list Page) :
  forall r, exists t,
    PopN (length s) (set_pageHistory s r)
    = Ok (popped s, set_pageHistory [] r, t).
Proof.
  induction s as [| x s IH] using rev_ind; intros r.
  - exists []. reflexivity.
  - destruct (IH r) as (t & HN).
    rewrite length_app, Nat.add_comm. simpl.
    unfold mbind, M_bind. rewrite Pop_after_pushed, HN.
    eexists. rewrite popped_snoc. reflexivity.
Qed.

(** X11.  Pushing [n] pages onto the empty history of a router whose
    limit (between 1 and [MaxInt]) is at least [n], and then calling [Pop]
    [n] times, empties the history again.  The calls of [Pop] return the
    pages in reverse order of pushing, except the last call, which removes
    the page pushed first and returns nil. *)
Theorem PushAll_PopN_returns_reverse (pages : list Page) (r : Router) :
  0 < int_of_uint (history r) ->
  pageHistory r = [] ->
  Z.of_nat (length pages) <= int_of_uint (history r) ->
  exists t,
    (PushAll pages;; PopN (length pages)) r
    = Ok (match pages with
          | [] => []
          | _ :: later => reverse later ++ [None]
          end, r, t).
Proof.
  intros Hv Hs Hle.
  destruct (PushAll_window pages r Hv) as (t1 & HA);
    [rewrite Hs; simpl; lia |].
  rewrite Hs in HA. simpl in HA. rewrite window_all in HA by lia.
  destruct (PopN_all pages r) as (t2 & HN).
  unfold mbind, M_bind. rewrite HA.
  rewrite HN. eexists. unfold popped.
  rewrite <- Hs, set_pageHistory_id. reflexivity.
Qed.

Lemma PushAll_PopN_returns_reverse_witness :
  exists t,
    (PushAll [Some 1%nat; Some 2%nat; Some 3%nat];; PopN 3) (NewRouter [])
    = Ok ([Some 3%nat; Some 2%nat; None], NewRouter [], t).
Proof.
  apply (PushAll_PopN_returns_reverse
           [Some 1%nat; Some 2%nat; Some 3%nat] (NewRouter [])).
  - reflexivity.
  - reflexivity.
  - discriminate.
Defined.

(** ** Run as a whole *)

Lemma runScript_bound (s : Script) :
  forall r,
  valid_limit r ->
  Z.of_nat (length (pageHistory r)) <= int_of_uint (history r) ->
  exists r' t,
    runScript s r = Ok (tt, r', t)
    /\ history r' = history r
    /\ defaultPage r' = defaultPage r
    /\ Z.of_nat (length (pageHistory r')) <= int_of_uint (history r').
Proof.
  induction s as [| page k IH | k IH | key value k IH | key k IH];
    intros r Hv Hle; simpl.
  - exists r, []. auto.
  - unfold mbind, M_bind. rewrite Push_valid by assumption. unfold pushed.
    destruct (IH (set_pageHistory (evict r ++ [page]) r) Hv)
      as (r' & t & -> & Hh & Hd & Hb).
    + simpl. rewrite length_app. simpl.
      pose proof (length_evict r Hv Hle). lia.
    + eexists _, _. split; [reflexivity |]. auto.
  - unfold mbind, M_bind.
    destruct (Pop_takes_last r) as (page & t0 & ->).
    destruct (IH page (set_pageHistory
                         (take (length (pageHistory r) - 1) (pageHistory r)) r)
                Hv) as (r' & t & -> & Hh & Hd & Hb).
    + simpl. rewrite length_take. lia.
    + eexists _, _. split; [reflexivity |]. auto.
  - unfold mbind, M_bind, CtxSetValue, modify.
    destruct (IH (set_ctx (WithValue (ctx r) (astring key) value) r) Hv Hle)
      as (r' & t & -> & Hh & Hd & Hb).
    eexists _, _. split; [reflexivity |]. auto.
  - unfold mbind, M_bind, CtxValue, get. simpl.
    destruct (IH (Value (ctx r) (astring key)) r Hv Hle)
      as (r' & t & -> & Hh & Hd & Hb).
    eexists _, _. split; [reflexivity |]. auto.
Qed.

Lemma runFrame_bound (f : Frame) (r : Router) :
  valid_limit r ->
  Z.of_nat (length (pageHistory r)) <= int_of_uint (history r) ->
  exists r' t,
    runFrame f r = Ok (tt, r', t)
    /\ history r' = history r
    /\ defaultPage r' = defaultPage r
    /\ Z.of_nat (length (pageHistory r')) <= int_of_uint (history r').
Proof.
  intros Hv Hle. destruct (top (pageHistory r)) as [p |] eqn:Htop.
  - destruct (runScript_bound (onUpdate f p) r Hv Hle)
      as (r' & t & Hrun & Hh & Hd & Hb).
    exists r', (frame_log p t). split; [| auto].
    unfold runFrame, mbind at 1, M_bind at 1.
    rewrite (resolvePage_active r p Htop).
    unfold updatePage, mbind, M_bind, emit. rewrite Hrun. reflexivity.
  - destruct (defaultPage r) as [d |] eqn:Hd.
    + unfold runFrame, mbind at 1, M_bind at 1.
      rewrite (resolvePage_default r d Hv Htop Hd).
      destruct (runScript_bound (onUpdate f d)
                  (set_pageHistory (evict r ++ [Some d]) r) Hv)
        as (r' & t & Hrun & Hh & Hd' & Hb).
      * simpl. rewrite length_app. simpl.
        pose proof (length_evict r Hv Hle). lia.
      * unfold updatePage, mbind, M_bind, emit. rewrite Hrun. simpl.
        eexists _, _. split; [reflexivity |].
        split; [exact Hh |]. split; [| exact Hb].
        rewrite Hd'. exact Hd.
    + unfold runFrame, mbind at 1, M_bind at 1.
      rewrite (resolvePage_idle r Htop Hd). simpl.
      exists r, []. rewrite Hd. auto.
Qed.

(** X12.  With a limit between 1 and [MaxInt] and a history within it,
    [Run] never faults, whatever the frames bring and whatever the pages do
    in [Update] with the exported methods; it leaves the limit and the
    default page as they were and the history within the limit. *)
Theorem Run_never_faults_within_limit (frames : list Frame) :
  forall r,
  0 < int_of_uint (history r) ->
  Z.of_nat (length (pageHistory r)) <= int_of_uint (history r) ->
  exists r' t,
    Run frames r = Ok (tt, r', t)
    /\ history r' = history r
    /\ defaultPage r' = defaultPage r
    /\ Z.of_nat (length (pageHistory r')) <= int_of_uint (history r').
Proof.
  induction frames as [| f rest IH]; intros r Hv Hle; simpl.
  - exists r, []. auto.
  - destruct (windowShouldClose f); [exists r, []; auto |].
    destruct (ctxDone f); [exists r, []; auto |].
    destruct (runFrame_bound f r Hv Hle) as (r1 & t1 & HF & Hh1 & Hd1 & Hb1).
    destruct (IH r1) as (r2 & t2 & HR & Hh2 & Hd2 & Hb2).
    + rewrite Hh1. exact Hv.
    + exact Hb1.
    + unfold mbind, M_bind. rewrite HF, HR.
      eexists _, _. split; [reflexivity |].
      split; [congruence |]. split; [congruence | exact Hb2].
Qed.

Lemma Run_never_faults_within_limit_witness :
  exists r' t,
    Run [Example.frame true false; Example.frame true true;
         Example.frame false true] Example.main_router
    = Ok (tt, r', t)
    /\ history r' = history Example.main_router
    /\ defaultPage r' = defaultPage Example.main_router
    /\ Z.of_nat (length (pageHistory r')) <= int_of_uint (history r').
Proof.
  apply (Run_never_faults_within_limit
           [Example.frame true false; Example.frame true true;
            Example.frame false true] Example.main_router).
  - reflexivity.
  - discriminate.
Defined.

(** X13.  While the router has no current page (the history is empty or
    its last entry is nil) and no default page, [Run] idles: through any
    number of turns it makes no call at all, neither into a page nor into
    the rendering backend, and leaves the router as it is. *)
Theorem Run_idles_without_page (frames : list Frame) (r : Router) :
  current r = Ok (None, r, []) ->
  defaultPage r = None ->
  Run frames r = Ok (tt, r, []).
Proof.
  intros Hcur Hd. rewrite current_eq in Hcur.
  assert (Htop : top (pageHistory r) = None) by congruence.
  induction frames as [| f rest IH]; simpl; [reflexivity |].
  destruct (windowShouldClose f); [reflexivity |].
  destruct (ctxDone f); [reflexivity |].
  unfold mbind, M_bind, runFrame. unfold mbind, M_bind.
  rewrite (resolvePage_idle r Htop Hd). simpl. rewrite IH. reflexivity.
Qed.

Lemma Run_idles_without_page_witness :
  Run [Example.frame true false; Example.frame false true] (NewRouter [])
  = Ok (tt, NewRouter [], []).
Proof.
  apply (Run_idles_without_page
           [Example.frame true false; Example.frame false true] (NewRouter []));
    reflexivity.
Defined.

(** X14.  A router whose limit is not positive as an [int] and which has a
    default page cannot run: the first turn of [Run] that is neither closed
    nor cancelled pushes the default page onto the empty history and
    faults, before any page is mounted, updated or drawn. *)
Theorem Run_faults_on_invalid_limit
  (f : Frame) (rest : list Frame) (r : Router) (d : PageId) :
  int_of_uint (history r) <= 0 ->
  pageHistory r = [] ->
  defaultPage r = Some d ->
  windowShouldClose f = false ->
  ctxDone f = false ->
  Run (f :: rest) r = Panic (SliceBoundsOutOfRange 1 0).
Proof.
  intros Hbad Hs Hd Hclose Hdone. simpl. rewrite Hclose, Hdone.
  unfold mbind at 1, M_bind at 1, runFrame.
  unfold mbind at 1, M_bind at 1, resolvePage.
  unfold mbind at 1, M_bind at 1.
  rewrite current_eq, Hs. simpl.
  unfold mbind at 1, M_bind at 1, get at 1. rewrite Hd.
  unfold mbind at 1, M_bind at 1.
  destruct (Push_fault_cases (Some d) r) as [[_ HP] _].
  rewrite HP; [reflexivity | split; assumption].
Qed.

Lemma Run_faults_on_invalid_limit_witness :
  Run [Example.frame false false]
      (NewRouter [WithHistory 0; WithDefaultPage (Some 1%nat)])
  = Panic (SliceBoundsOutOfRange 1 0).
Proof.
  apply (Run_faults_on_invalid_limit (Example.frame false false) []
           (NewRouter [WithHistory 0; WithDefaultPage (Some 1%nat)]) 1%nat).
  - discriminate.
  - reflexivity.
  - reflexivity.
  - reflexivity.
  - reflexivity.
Defined.

(** X15.  [Run] ends at the first frame in which the window is to close or
    the context is done: that frame and every frame after it are without
    effect, whatever they hold. *)
Theorem Run_stops_at_close_or_cancel
  (before : list Frame) (f : Frame) (rest : list Frame) :
  windowShouldClose f = true \/ ctxDone f = true ->
  forall r, Run (before ++ f :: rest) r = Run before r.
Proof.
  intros Hstop. induction before as [| g before IH]; intros r; simpl.
  - destruct Hstop as [-> | ->]; [reflexivity |].
    destruct (windowShouldClose f); reflexivity.
  - destruct (windowShouldClose g); [reflexivity |].
    destruct (ctxDone g); [reflexivity |].
    unfold mbind, M_bind.
    destruct (runFrame g r) as [[[[] r1] t1] | e]; [| reflexivity].
    rewrite IH. reflexivity.
Qed.

Lemma Run_stops_at_close_or_cancel_witness :
  Run ([Example.frame true false]
       ++ mkFrame false true (fun _ => CallPop (fun _ => Done))
       :: [Example.frame true false]) Example.main_router
  = Run [Example.frame true false] Example.main_router.
Proof.
  apply (Run_stops_at_close_or_cancel [Example.frame true false]
           (mkFrame false true (fun _ => CallPop (fun _ => Done)))
           [Example.frame true false]).
  right. reflexivity.
Defined.

(** ** At most one page mounted, at every moment *)

Lemma never_two_app (t t' : list Event) :
  forall acc,
  never_two_mounted acc t ->
  never_two_mounted (foldl track_event acc t) t' ->
  never_two_mounted acc (t ++ t').
Proof.
  induction t as [| e t IH]; intros acc Ht Ht'; simpl in *.
  - exact Ht'.
  - destruct Ht as [Hacc Ht]. split; [exact Hacc |]. apply IH; assumption.
Qed.

Lemma never_two_start (acc : list PageId) (t : list Event) :
  never_two_mounted acc t -> (length acc <= 1)%nat.
Proof. destruct t; simpl; intros [H _]; exact H. Qed.

Lemma length_active (r : Router) : (length (active r) <= 1)%nat.
Proof.
  unfold active. destruct (last (pageHistory r)) as [[p |] |]; simpl; lia.
Qed.

Lemma never_two_turnover (s : list Page) (x : Page) (r : Router) :
  pageHistory r = s ->
  never_two_mounted (active r) (unmount_last s ++ calls EMount x).
Proof.
  intros <-. unfold active, unmount_last.
  destruct (last (pageHistory r)) as [[q |] |], x as [p |]; simpl;
    rewrite ?decide_True by reflexivity; simpl; repeat split; lia.
Qed.

Lemma Push_never_two (page : Page) (r : Router) (t0 : list Event) :
  2 <= int_of_uint (history r) ->
  one_mounted r t0 ->
  exists r' t,
    Push page r = Ok (tt, r', t)
    /\ history r' = history r
    /\ defaultPage r' = defaultPage r
    /\ one_mounted r' (t0 ++ t)
    /\ never_two_mounted (mounted t0) t.
Proof.
  intros H2 Hinv.
  destruct (Push_one_mounted page r t0 H2 Hinv) as (r' & t & HP & Hh & Hi).
  exists r', t. split; [exact HP |]. split; [exact Hh |].
  assert (Hv : valid_limit r) by (unfold valid_limit; lia).
  rewrite (Push_valid page r Hv) in HP. unfold pushed in HP.
  inversion HP; subst. split; [reflexivity |]. split; [exact Hi |].
  destruct Hinv as [-> _]. unfold unmount_last at 1.
  rewrite (last_evict r H2). fold (unmount_last (pageHistory r)).
  apply (never_two_turnover (pageHistory r) page r eq_refl).
Qed.

Lemma Pop_never_two (r : Router) (t0 : list Event) :
  one_mounted r t0 ->
  exists page r' t,
    Pop r = Ok (page, r', t)
    /\ history r' = history r
    /\ defaultPage r' = defaultPage r
    /\ one_mounted r' (t0 ++ t)
    /\ never_two_mounted (mounted t0) t.
Proof.
  intros Hinv.
  destruct (Pop_one_mounted r t0 Hinv) as (page & r' & t & HP & Hh & Hi).
  exists page, r', t. split; [exact HP |]. split; [exact Hh |].
  destruct Hinv as [Hm _]. rewrite Hm.
  destruct (snoc_cases (pageHistory r)) as [Hs | (s & x & Hs)].
  - rewrite (Pop_nil r Hs) in HP. inversion HP; subst.
    split; [reflexivity |]. split; [exact Hi |].
    simpl. split; [apply length_active | exact I].
  - rewrite (Pop_snoc r s x Hs) in HP. inversion HP; subst.
    split; [reflexivity |]. split; [exact Hi |].
    unfold active, mount_last. rewrite Hs, last_snoc.
    destruct x as [q |], (last s) as [[p |] |]; simpl;
      rewrite ?decide_True by reflexivity; simpl; repeat split; lia.
Qed.

Lemma runScript_never_two (s : Script) :
  forall r t0,
  2 <= int_of_uint (history r) ->
  one_mounted r t0 ->
  exists r' t,
    runScript s r = Ok (tt, r', t)
    /\ history r' = history r
    /\ defaultPage r' = defaultPage r
    /\ one_mounted r' (t0 ++ t)
    /\ never_two_mounted (mounted t0) t.
Proof.
  induction s as [| page k IH | k IH | key value k IH | key k IH];
    intros r t0 H2 Hinv; simpl.
  - exists r, []. rewrite app_nil_r. repeat split; try apply Hinv.
    destruct Hinv as [-> _]. apply length_active.
  - destruct (Push_never_two page r t0 H2 Hinv)
      as (r1 & t1 & HP & Hh1 & Hd1 & Hi1 & Hn1).
    destruct (IH r1 (t0 ++ t1)) as (r2 & t2 & HR & Hh2 & Hd2 & Hi2 & Hn2);
      [rewrite Hh1; exact H2 | exact Hi1 |].
    unfold mbind, M_bind. rewrite HP, HR.
    eexists _, _. split; [reflexivity |].
    split; [congruence |]. split; [congruence |].
    split; [rewrite app_assoc; exact Hi2 |].
    apply never_two_app; [exact Hn1 |].
    rewrite <- mounted_app. exact Hn2.
  - destruct (Pop_never_two r t0 Hinv)
      as (page & r1 & t1 & HP & Hh1 & Hd1 & Hi1 & Hn1).
    destruct (IH page r1 (t0 ++ t1)) as (r2 & t2 & HR & Hh2 & Hd2 & Hi2 & Hn2);
      [rewrite Hh1; exact H2 | exact Hi1 |].
    unfold mbind, M_bind. rewrite HP, HR.
    eexists _, _. split; [reflexivity |].
    split; [congruence |]. split; [congruence |].
    split; [rewrite app_assoc; exact Hi2 |].
    apply never_two_app; [exact Hn1 |].
    rewrite <- mounted_app. exact Hn2.
  - unfold mbind, M_bind, CtxSetValue, modify.
    destruct (IH (set_ctx (WithValue (ctx r) (astring key) value) r) t0 H2 Hinv)
      as (r2 & t2 & -> & Hh2 & Hd2 & Hi2 & Hn2).
    eexists _, _. split; [reflexivity |]. auto.
  - unfold mbind, M_bind, CtxValue, get. simpl.
    destruct (IH (Value (ctx r) (astring key)) r t0 H2 Hinv)
      as (r2 & t2 & -> & Hh2 & Hd2 & Hi2 & Hn2).
    eexists _, _. split; [reflexivity |]. auto.
Qed.

Lemma never_two_frame_log (acc : list PageId) (p : PageId) (t : list Event) :
  never_two_mounted acc t ->
  (length (foldl track_event acc t) <= 1)%nat ->
  never_two_mounted acc (frame_log p t)
  /\ foldl track_event acc (frame_log p t) = foldl track_event acc t.
Proof.
  intros Hn Hlen. unfold frame_log. split.
  - simpl. split; [eapply never_two_start; exact Hn |].
    apply never_two_app; [exact Hn |]. simpl. repeat split; exact Hlen.
  - simpl. rewrite foldl_app. reflexivity.
Qed.

Lemma runFrame_never_two (f : Frame) (r : Router) (t0 : list Event) :
  2 <= int_of_uint (history r) ->
  one_mounted r t0 ->
  exists r' t,
    runFrame f r = Ok (tt, r', t)
    /\ history r' = history r
    /\ one_mounted r' (t0 ++ t)
    /\ never_two_mounted (mounted t0) t.
Proof.
  intros H2 Hinv.
  assert (Hv : valid_limit r) by (unfold valid_limit; lia).
  assert (Hshow : forall r1 t1 p,
            history r1 = history r ->
            one_mounted r1 (t0 ++ t1) ->
            never_two_mounted (mounted t0) t1 ->
            resolvePage r = Ok (Some p, r1, t1) ->
            exists r' t,
              runFrame f r = Ok (tt, r', t)
              /\ history r' = history r
              /\ one_mounted r' (t0 ++ t)
              /\ never_two_mounted (mounted t0) t).
  { intros r1 t1 p Hh1 Hi1 Hn1 Hres.
    destruct (runScript_never_two (onUpdate f p) r1 (t0 ++ t1))
      as (r' & t & Hrun & Hh & _ & Hi & Hn); [rewrite Hh1; exact H2 | exact Hi1 |].
    assert (Hlen : (length (foldl track_event (mounted (t0 ++ t1)) t) <= 1)%nat).
    { rewrite <- mounted_app. destruct Hi as [-> _]. apply length_active. }
    destruct (never_two_frame_log _ p t Hn Hlen) as [Hnf Hff].
    exists r', (t1 ++ frame_log p t). split; [| split; [congruence | split]].
    - unfold runFrame, mbind at 1, M_bind at 1. rewrite Hres.
      unfold updatePage, mbind, M_bind, emit. rewrite Hrun. reflexivity.
    - destruct Hi as [Hm Hb]. split; [| exact Hb].
      rewrite <- Hm, app_assoc, (mounted_app (t0 ++ t1) (frame_log p t)), Hff.
      rewrite <- mounted_app. reflexivity.
    - apply never_two_app; [exact Hn1 |].
      rewrite <- mounted_app. exact Hnf. }
  destruct (top (pageHistory r)) as [p |] eqn:Htop.
  - apply (Hshow r [] p); [reflexivity | rewrite app_nil_r; exact Hinv | |
                           apply resolvePage_active; exact Htop].
    simpl. split; [| exact I]. destruct Hinv as [-> _]. apply length_active.
  - destruct (defaultPage r) as [d |] eqn:Hd.
    + destruct (Push_never_two (Some d) r t0 H2 Hinv)
        as (r1 & t1 & HP & Hh1 & _ & Hi1 & Hn1).
      apply (Hshow r1 t1 d Hh1 Hi1 Hn1).
      rewrite (resolvePage_default r d Hv Htop Hd).
      rewrite (Push_valid (Some d) r Hv) in HP. unfold pushed in HP.
      inversion HP; subst. reflexivity.
    + exists r, []. rewrite app_nil_r.
      split; [| split; [reflexivity | split; [exact Hinv |]]].
      * unfold runFrame, mbind at 1, M_bind at 1.
        rewrite (resolvePage_idle r Htop Hd). reflexivity.
      * simpl. split; [| exact I]. destruct Hinv as [-> _]. apply length_active.
Qed.

Lemma Run_never_two (frames : list Frame) :
  forall r t0,
  2 <= int_of_uint (history r) ->
  one_mounted r t0 ->
  exists r' t,
    Run frames r = Ok (tt, r', t)
    /\ one_mounted r' (t0 ++ t)
    /\ never_two_mounted (mounted t0) t.
Proof.
  induction frames as [| f rest IH]; intros r t0 H2 Hinv; simpl.
  - exists r, []. rewrite app_nil_r. split; [reflexivity |].
    split; [exact Hinv |]. simpl. split; [| exact I].
    destruct Hinv as [-> _]. apply length_active.
  - assert (Hstop : exists r' t,
              (mret tt : M unit) r = Ok (tt, r', t)
              /\ one_mounted r' (t0 ++ t)
              /\ never_two_mounted (mounted t0) t).
    { exists r, []. rewrite app_nil_r. split; [reflexivity |].
      split; [exact Hinv |]. simpl. split; [| exact I].
      destruct Hinv as [-> _]. apply length_active. }
    destruct (windowShouldClose f); [exact Hstop |].
    destruct (ctxDone f); [exact Hstop |].
    destruct (runFrame_never_two f r t0 H2 Hinv)
      as (r1 & t1 & HF & Hh1 & Hi1 & Hn1).
    destruct (IH r1 (t0 ++ t1)) as (r2 & t2 & HR & Hi2 & Hn2);
      [rewrite Hh1; exact H2 | exact Hi1 |].
    unfold mbind, M_bind. rewrite HF, HR.
    eexists _, _. split; [reflexivity |].
    split; [rewrite app_assoc; exact Hi2 |].
    apply never_two_app; [exact Hn1 |].
    rewrite <- mounted_app. exact Hn2.
Qed.

(** X16.  On a router made by [NewRouter] with a limit between 2 and
    [MaxInt], [Run] completes, and at no moment of its log are two pages
    mounted: every [Mount] comes after the [Unmount] of the page mounted
    before.  When [Run] is left, the page mounted is the last entry of the
    history if that is a page, and no page is mounted otherwise. *)
Theorem Run_never_two_pages_mounted
  (options : list RouterOption) (frames : list Frame) :
  2 <= int_of_uint (history (NewRouter options)) ->
  exists r' t,
    Run frames (NewRouter options) = Ok (tt, r', t)
    /\ never_two_mounted [] t
    /\ mounted t = active r'.
Proof.
  intros H2.
  destruct (Run_never_two frames (NewRouter options) [] H2)
    as (r' & t & HR & [Hm _] & Hn).
  - split.
    + unfold active. rewrite NewRouter_pageHistory. reflexivity.
    + rewrite NewRouter_pageHistory. simpl. lia.
  - exists r', t. auto.
Qed.

Lemma Run_never_two_pages_mounted_witness :
  exists r' t,
    Run [Example.frame true false; Example.frame false true]
        Example.main_router = Ok (tt, r', t)
    /\ never_two_mounted [] t
    /\ mounted t = active r'.
Proof.
  apply (Run_never_two_pages_mounted
           [WithHistory 15; WithDefaultPage (Some 1%nat)]
           [Example.frame true false; Example.frame false true]).
  discriminate.
Defined.

(** X17.  The same for a page's [Update] alone: with a limit between 2 and
    [MaxInt], started in a state where the active page is the one page
    mounted, any series of [Push], [Pop], [CtxSetValue] and [CtxValue]
    calls completes, never has two pages mounted, and ends with the active
    page as the one page mounted. *)
Theorem runScript_never_two_pages_mounted
  (s : Script) (r : Router) (t0 : list Event) :
  2 <= int_of_uint (history r) ->
  mounted t0 = active r ->
  Z.of_nat (length (pageHistory r)) <= int_of_uint (history r) ->
  exists r' t,
    runScript s r = Ok (tt, r', t)
    /\ never_two_mounted (mounted t0) t
    /\ mounted (t0 ++ t) = active r'
    /\ Z.of_nat (length (pageHistory r')) <= int_of_uint (history r').
Proof.
  intros H2 Hm Hb.
  destruct (runScript_never_two s r t0 H2 (conj Hm Hb))
    as (r' & t & HR & Hh & _ & [Hm' Hb'] & Hn).
  exists r', t. auto.
Qed.

Lemma runScript_never_two_pages_mounted_witness :
  exists r' t,
    runScript (CallPush (Some 2%nat) (CallPop (fun page => CallPush page Done)))
              Example.started = Ok (tt, r', t)
    /\ never_two_mounted (mounted [EMount 1%nat]) t
    /\ mounted ([EMount 1%nat] ++ t) = active r'
    /\ Z.of_nat (length (pageHistory r')) <= int_of_uint (history r').
Proof.
  apply (runScript_never_two_pages_mounted
           (CallPush (Some 2%nat) (CallPop (fun page => CallPush page Done)))
           Example.started [EMount 1%nat]).
  - discriminate.
  - reflexivity.
  - discriminate.
Defined.

(** ** The log of Run *)

Lemma updated_app (t t' : list Event) :
  updated (t ++ t') = updated t ++ updated t'.
Proof. unfold updated. apply omap_app. Qed.

Lemma updated_calls_EMount (page : Page) : updated (calls EMount page) = [].
Proof. destruct page; reflexivity. Qed.

Lemma updated_calls_EUnmount (page : Page) : updated (calls EUnmount page) = [].
Proof. destruct page; reflexivity. Qed.

Lemma updated_Push (page : Page) (r r' : Router) (t : list Event) :
  Push page r = Ok (tt, r', t) -> updated t = [].
Proof.
  rewrite Push_eq. unfold pushed, unmount_last. intros HP.
  assert (Hgo : forall s, updated (match last s with
                                   | Some pg => calls EUnmount pg
                                   | None => []
                                   end ++ calls EMount page) = []).
  { intros s. rewrite updated_app, updated_calls_EMount.
    destruct (last s); [rewrite updated_calls_EUnmount |]; reflexivity. }
  destruct (int_of_uint (history r) <=? Z.of_nat (length (pageHistory r)));
    [destruct (pageHistory r); [discriminate |] |];
    inversion HP; subst; apply Hgo.
Qed.

Lemma updated_Pop (page : Page) (r r' : Router) (t : list Event) :
  Pop r = Ok (page, r', t) -> updated t = [].
Proof.
  destruct (snoc_cases (pageHistory r)) as [Hs | (s & x & Hs)].
  - rewrite (Pop_nil r Hs). intros HP; inversion HP; reflexivity.
  - rewrite (Pop_snoc r s x Hs). intros HP; inversion HP; subst.
    rewrite updated_app, updated_calls_EUnmount. unfold mount_last.
    destruct (last s); [apply updated_calls_EMount | reflexivity].
Qed.

Lemma updated_runScript (s : Script) :
  forall r r' t, runScript s r = Ok (tt, r', t) -> updated t = [].
Proof.
  induction s as [| page k IH | k IH | key value k IH | key k IH];
    intros r r' t Hrun; simpl in Hrun.
  - inversion Hrun; reflexivity.
  - unfold mbind, M_bind in Hrun.
    destruct (Push page r) as [[[[] r1] t1] | e] eqn:HP; [| discriminate].
    destruct (runScript k r1) as [[[[] r2] t2] | e] eqn:Hk; [| discriminate].
    inversion Hrun; subst. rewrite updated_app.
    rewrite (updated_Push _ _ _ _ HP), (IH _ _ _ Hk). reflexivity.
  - unfold mbind, M_bind in Hrun.
    destruct (Pop r) as [[[page r1] t1] | e] eqn:HP; [| discriminate].
    destruct (runScript (k page) r1) as [[[[] r2] t2] | e] eqn:Hk;
      [| discriminate].
    inversion Hrun; subst. rewrite updated_app.
    rewrite (updated_Pop _ _ _ _ HP), (IH _ _ _ _ Hk). reflexivity.
  - unfold mbind, M_bind, CtxSetValue, modify in Hrun.
    destruct (runScript k _) as [[[[] r2] t2] | e] eqn:Hk; [| discriminate].
    inversion Hrun; subst. simpl. eapply IH; exact Hk.
  - unfold mbind, M_bind, CtxValue, get in Hrun. simpl in Hrun.
    destruct (runScript (k _) r) as [[[[] r2] t2] | e] eqn:Hk; [| discriminate].
    inversion Hrun; subst. simpl. eapply IH; exact Hk.
Qed.

Lemma runFrame_draws_what_it_updates
  (f : Frame) (r r' : Router) (t : list Event) :
  runFrame f r = Ok (tt, r', t) ->
  drawn t = updated t /\ (length (drawn t) <= 1)%nat.
Proof.
  intros HF. unfold runFrame, mbind at 1, M_bind at 1 in HF.
  destruct (resolvePage r) as [[[page r1] t1] | e] eqn:Hres; [| discriminate].
  assert (Ht1 : drawn t1 = [] /\ updated t1 = []).
  { unfold resolvePage, mbind at 1, M_bind at 1 in Hres.
    rewrite current_eq in Hres.
    destruct (top (pageHistory r)) as [q |].
    - inversion Hres; subst. auto.
    - unfold mbind at 1, M_bind at 1, get at 1 in Hres.
      destruct (defaultPage r) as [d |]; [| inversion Hres; subst; auto].
      unfold mbind at 1, M_bind at 1 in Hres.
      destruct (Push (Some d) r) as [[[[] r2] t2] | e] eqn:HP; [| discriminate].
      simpl in Hres. inversion Hres; subst. rewrite !app_nil_r.
      split; [eapply drawn_Push | eapply updated_Push]; exact HP. }
  destruct Ht1 as [Hd1 Hu1].
  destruct page as [p |].
  - unfold updatePage, mbind, M_bind, emit in HF. simpl in HF.
    destruct (runScript (onUpdate f p) r1) as [[[[] r2] t2] | e] eqn:Hrun;
      [| discriminate].
    inversion HF; subst.
    pose proof (drawn_runScript _ _ _ _ Hrun) as Hd2.
    pose proof (updated_runScript _ _ _ _ Hrun) as Hu2.
    change (EUpdate p :: t2 ++ [EBeginDrawing; EDraw p; EEndDrawing])
      with ([EUpdate p] ++ t2 ++ [EBeginDrawing; EDraw p; EEndDrawing]).
    rewrite !drawn_app, !updated_app, Hd1, Hu1, Hd2, Hu2. simpl. split; [reflexivity | lia].
  - simpl in HF. inversion HF; subst. rewrite app_nil_r, Hd1, Hu1.
    split; [reflexivity | simpl; lia].
Qed.

(** X18.  In every log of [Run] the pages drawn are the pages updated, in
    the same order: a turn calls [Draw] on the page it called [Update] on,
    even when that [Update] put another page on top, and on no other page;
    there is at most one such pair of calls per frame. *)
Theorem Run_draws_what_it_updates (frames : list Frame) :
  forall r r' t,
  Run frames r = Ok (tt, r', t) ->
  drawn t = updated t /\ (length (drawn t) <= length frames)%nat.
Proof.
  induction frames as [| f rest IH]; intros r r' t HR; simpl in HR.
  - inversion HR; subst. split; [reflexivity | simpl; lia].
  - destruct (windowShouldClose f);
      [inversion HR; subst; split; [reflexivity | simpl; lia] |].
    destruct (ctxDone f);
      [inversion HR; subst; split; [reflexivity | simpl; lia] |].
    unfold mbind, M_bind in HR.
    destruct (runFrame f r) as [[[[] r1] t1] | e] eqn:HF; [| discriminate].
    destruct (Run rest r1) as [[[[] r2] t2] | e] eqn:HR1; [| discriminate].
    inversion HR; subst.
    destruct (runFrame_draws_what_it_updates _ _ _ _ HF) as [He1 Hl1].
    destruct (IH _ _ _ HR1) as [He2 Hl2].
    split.
    + rewrite drawn_app, updated_app, He1, He2. reflexivity.
    + rewrite drawn_app, length_app. simpl. lia.
Qed.

Lemma Run_draws_what_it_updates_witness :
  drawn [EMount 1%nat; EUpdate 1%nat; EUnmount 1%nat; EMount 2%nat;
         EBeginDrawing; EDraw 1%nat; EEndDrawing;
         EUpdate 2%nat; EBeginDrawing; EDraw 2%nat; EEndDrawing]
  = updated [EMount 1%nat; EUpdate 1%nat; EUnmount 1%nat; EMount 2%nat;
             EBeginDrawing; EDraw 1%nat; EEndDrawing;
             EUpdate 2%nat; EBeginDrawing; EDraw 2%nat; EEndDrawing].
Proof.
  apply (Run_draws_what_it_updates
           [Example.frame true false; Example.frame false false]
           Example.main_router
           (mkRouter Background (Some 1%nat) 15 [Some 1%nat; Some 2%nat])).
  reflexivity.
Defined.

(** ** Routers with a limit that is not positive *)

(** X19.  A router made by [NewRouter] and used through the exported
    methods never holds a page when its limit is not positive as an [int]
    (0, or [2^63] and more): its history stays empty, since every [Push]
    on it faults. *)
Theorem Reachable_invalid_limit_stays_empty (r : Router) :
  Reachable r ->
  int_of_uint (history r) <= 0 ->
  pageHistory r = [].
Proof.
  intros Hreach Hbad.
  destruct (Reachable_inv r Hreach) as [Hs | Hv]; [exact Hs |].
  unfold valid_limit in Hv. lia.
Qed.

Lemma Reachable_invalid_limit_stays_empty_witness :
  pageHistory (mkRouter (valueCtx Background (astring "k") (aint 1)) None 0 [])
  = [].
Proof.
  apply Reachable_invalid_limit_stays_empty; [| discriminate].
  exact (reach_script
           (CallPop (fun _ => CallCtxSetValue "k" (aint 1) Done))
           (NewRouter [WithHistory 0]) _ [] (reach_new _) eq_refl).
Defined.

(** ** Navigation and the shared context *)

Lemma Push_set_ctx (page : Page) (c : Context) (r : Router) :
  Push page (set_ctx c r)
  = match Push page r with
    | Ok (u, r', t) => Ok (u, set_ctx c r', t)
    | Panic e => Panic e
    end.
Proof.
  rewrite !Push_eq. simpl history. simpl pageHistory.
  destruct (int_of_uint (history r) <=? Z.of_nat (length (pageHistory r)));
    [destruct (pageHistory r) |]; reflexivity.
Qed.

Lemma Pop_set_ctx (c : Context) (r : Router) :
  Pop (set_ctx c r)
  = match Pop r with
    | Ok (page, r', t) => Ok (page, set_ctx c r', t)
    | Panic e => Panic e
    end.
Proof.
  destruct (snoc_cases (pageHistory r)) as [Hs | (s & x & Hs)].
  - rewrite (Pop_nil r Hs), (Pop_nil (set_ctx c r)) by exact Hs. reflexivity.
  - rewrite (Pop_snoc r s x Hs), (Pop_snoc (set_ctx c r) s x) by exact Hs.
    reflexivity.
Qed.

Lemma runNavs_set_ctx (ns : list Nav) :
  forall c r,
  runNavs ns (set_ctx c r)
  = match runNavs ns r with
    | Ok (u, r', t) => Ok (u, set_ctx c r', t)
    | Panic e => Panic e
    end.
Proof.
  induction ns as [| n ns IH]; intros c r; simpl; [reflexivity |].
  unfold mbind, M_bind. destruct n as [page |]; simpl.
  - rewrite Push_set_ctx.
    destruct (Push page r) as [[[[] r1] t1] | e]; [| reflexivity].
    rewrite IH. destruct (runNavs ns r1) as [[[[] r2] t2] | e]; reflexivity.
  - unfold mbind, M_bind. rewrite Pop_set_ctx.
    destruct (Pop r) as [[[page r1] t1] | e]; [| reflexivity]. simpl.
    rewrite IH. destruct (runNavs ns r1) as [[[[] r2] t2] | e]; reflexivity.
Qed.

Lemma runNavs_ctx (ns : list Nav) :
  forall r r' t, runNavs ns r = Ok (tt, r', t) -> ctx r' = ctx r.
Proof.
  induction ns as [| n ns IH]; intros r r' t HR; simpl in HR.
  - inversion HR; reflexivity.
  - unfold mbind, M_bind in HR.
    destruct (runNav n r) as [[[[] r1] t1] | e] eqn:HN; [| discriminate].
    destruct (runNavs ns r1) as [[[[] r2] t2] | e] eqn:HR1; [| discriminate].
    inversion HR; subst. rewrite (IH _ _ _ HR1).
    destruct n as [page |]; simpl in HN.
    + destruct (Push_result_fields page r r1 t1 HN) as (_ & _ & _ & _ & Hc).
      exact Hc.
    + unfold mbind, M_bind in HN.
      destruct (Pop_takes_last r) as (page & t0 & HP). rewrite HP in HN.
      inversion HN; subst. reflexivity.
Qed.

(** X20.  Navigation and the shared context do not touch each other: a
    [CtxSetValue] made before any sequence of [Push] and [Pop] calls has
    the same outcome (router, log, or fault) as the same [CtxSetValue] made
    after it, and what [CtxValue] returns for a key is the same before and
    after the sequence. *)
Theorem CtxSetValue_commutes_with_navigation
  (key : string) (value : any) (ns : list Nav) (r : Router) :
  (CtxSetValue key value;; runNavs ns) r
  = (runNavs ns;; CtxSetValue key value) r
  /\ (forall r' t k,
        runNavs ns r = Ok (tt, r', t) ->
        CtxValue k r' = Ok (Value (ctx r) (astring k), r', [])).
Proof.
  split.
  - unfold mbind, M_bind, CtxSetValue, modify.
    rewrite runNavs_set_ctx.
    destruct (runNavs ns r) as [[[[] r1] t1] | e] eqn:HR; [| reflexivity].
    rewrite (runNavs_ctx ns r r1 t1 HR), app_nil_r. reflexivity.
  - intros r' t k HR. unfold CtxValue, mbind, M_bind, get. simpl.
    rewrite (runNavs_ctx ns r r' t HR). reflexivity.
Qed.

(** ** The example application over any number of frames *)






(** ** Limits above MaxInt *)

(** X22.  [Push] compares the length of the history with [int(r.history)].
    With [uint] 64 bits wide, a limit given to [WithHistory] that is larger
    than [MaxInt] is negative in that comparison: on the new router the
    history counts as full at once and every [Push] faults, as with a limit
    of 0. *)
Theorem Push_faults_above_MaxInt (n : Z) (page : Page) :
  MaxInt < n < uint_modulus ->
  int_of_uint (history (NewRouter [WithHistory n])) = n - uint_modulus
  /\ Push page (NewRouter [WithHistory n]) = Panic (SliceBoundsOutOfRange 1 0).
Proof.
  intros Hn.
  assert (Hi : int_of_uint (history (NewRouter [WithHistory n]))
               = n - uint_modulus).
  { simpl. unfold int_of_uint. unfold uint_modulus, MaxInt in *.
    rewrite Z.mod_mod by lia. rewrite Z.mod_small by lia.
    destruct (Z.leb_spec n (2 ^ 63 - 1)); [lia | reflexivity]. }
  split; [exact Hi |].
  destruct (Push_fault_cases page (NewRouter [WithHistory n])) as [[_ HP] _].
  apply HP. split; [rewrite Hi; lia | reflexivity].
Qed.

Lemma Push_faults_above_MaxInt_witness :
  Push (Some 1%nat) (NewRouter [WithHistory (2 ^ 63)])
  = Panic (SliceBoundsOutOfRange 1 0).
Proof.
  apply (Push_faults_above_MaxInt (2 ^ 63) (Some 1%nat)).
  split; reflexivity.
Defined.
